(** * NullLink-Pi: the S3 manager (src/S3Manager.py)

    A shallow embedding of the module that mirrors an S3 bucket listing in
    a local SQLite table ([update_local_database]), decides whether a local
    file has to be uploaded ([needFile]) and walks the data directory
    ([upload_files]), together with the properties its specification
    states about it. *)

From Stdlib Require Import ZArith Lia Ascii.
From stdpp Require Import base strings list gmap fin_maps.

Local Open Scope string_scope.
Local Open Scope Z_scope.
Local Open Scope list_scope.

(** ** Wall-clock values and [strftime] *)

(** The naive local date and time that [datetime.now()] returns. *)
Record datetime := mkDatetime {
  year : Z; month : Z; day : Z;
  hour : Z; minute : Z; second : Z; microsecond : Z
}.

(** Python's [_is_leap], [_days_before_year], [_days_before_month] and
    [_ymd2ord] (Lib/_pydatetime.py), which [timetuple()] uses to fill in
    the day of the week and the day of the year. *)
Definition is_leap (y : Z) : bool :=
  (y mod 4 =? 0) && (negb (y mod 100 =? 0) || (y mod 400 =? 0)).

Definition days_before_year (y : Z) : Z :=
  let y := y - 1 in y * 365 + y / 4 - y / 100 + y / 400.

Definition DAYS_BEFORE_MONTH : list Z :=
  [0; 31; 59; 90; 120; 151; 181; 212; 243; 273; 304; 334].

Definition DAYS_IN_MONTH : list Z :=
  [31; 28; 31; 30; 31; 30; 31; 31; 30; 31; 30; 31].

Definition days_in_month (y m : Z) : Z :=
  if (m =? 2) && is_leap y then 29
  else nth (Z.to_nat (m - 1)) DAYS_IN_MONTH 0.

Definition days_before_month (y m : Z) : Z :=
  nth (Z.to_nat (m - 1)) DAYS_BEFORE_MONTH 0
  + (if (2 <? m) && is_leap y then 1 else 0).

Definition ymd2ord (y m d : Z) : Z :=
  days_before_year y + days_before_month y m + d.

Definition toordinal (t : datetime) : Z := ymd2ord (year t) (month t) (day t).

(** [weekday()] has Monday = 0; C's [tm_wday] has Sunday = 0 and
    [tm_yday] counts from 0 (the conversion of [time.strftime]). *)
Definition weekday (t : datetime) : Z := (toordinal t + 6) mod 7.
Definition tm_wday (t : datetime) : Z := (weekday t + 1) mod 7.
Definition tm_yday (t : datetime) : Z :=
  days_before_month (year t) (month t) + day t - 1.

(** [%U]: week of the year with Sunday as first day; the days before the
    first Sunday are in week 0. *)
Definition week_U (t : datetime) : Z := (tm_yday t + 7 - tm_wday t) / 7.

(** The values a [datetime] object can hold (MINYEAR = 1, MAXYEAR = 9999). *)
Definition valid_datetime (t : datetime) : Prop :=
  1 <= year t <= 9999 /\ 1 <= month t <= 12 /\
  1 <= day t <= days_in_month (year t) (month t) /\
  0 <= hour t < 24 /\ 0 <= minute t < 60 /\ 0 <= second t < 60 /\
  0 <= microsecond t < 1000000.

Definition digit (n : Z) : ascii := ascii_of_nat (Z.to_nat (48 + n mod 10)).

(** Zero-padded decimal fields of width two and four ([%02d], [%04d]);
    every field of a valid [datetime] fits its width. *)
Definition pad2 (n : Z) : string :=
  String (digit (n / 10)) (String (digit n) "").
Definition pad4 (n : Z) : string := pad2 (n / 100) +:+ pad2 (n mod 100).

Definition directive (c : ascii) (t : datetime) : option string :=
  if Ascii.eqb c "Y" then Some (pad4 (year t))
  else if Ascii.eqb c "m" then Some (pad2 (month t))
  else if Ascii.eqb c "d" then Some (pad2 (day t))
  else if Ascii.eqb c "H" then Some (pad2 (hour t))
  else if Ascii.eqb c "M" then Some (pad2 (minute t))
  else if Ascii.eqb c "S" then Some (pad2 (second t))
  else if Ascii.eqb c "U" then Some (pad2 (week_U t))
  else None.

(** [now.strftime(fmt)] for the directives this module uses; any other
    text is copied, a lone trailing [%] included (CPython 3.8 and later
    hand it to the C library, and glibc copies it). The year is printed
    with four digits, which every platform does from the year 1000 on. *)
Fixpoint strftime (t : datetime) (fmt : string) {struct fmt} : string :=
  match fmt with
  | EmptyString => ""
  | String c rest =>
      if Ascii.eqb c "%" then
        match rest with
        | EmptyString => "%"
        | String d rest' =>
            match directive d t with
            | Some s => s +:+ strftime t rest'
            | None => String c (String d (strftime t rest'))
            end
        end
      else String c (strftime t rest)
  end.

(** [s[:-n]] *)
Definition drop_last (n : nat) (s : string) : string :=
  String.substring 0 (String.length s - n) s.

(** [DATETIME_FORMAT = '%Y-%m-%dT%H:%M:%S.%f'[:-4]]: the slice is taken
    from the format, not from a formatted time, so the format is
    ['%Y-%m-%dT%H:%M:%'] and ends in a lone [%]. *)
Definition DATETIME_FORMAT : string :=
  Eval cbv in drop_last 4 "%Y-%m-%dT%H:%M:%S.%f".

(** ** The SQLite table [s3_files] *)

(** A row without its primary key [filename]. *)
Record Row := mkRow { size : Z; updated_at : string }.

Inductive Stmt :=
  | CreateTableIfNotExists
  | SelectAll
  | SelectExact (filename : string) (sz : Z)
  | Insert (filename : string) (sz : Z) (ts : string)
  | Update (sz : Z) (ts : string) (filename : string)
  | Delete (filename : string)
  | InsertOrReplace (filename : string) (sz : Z) (ts : string).

Definition is_mutation (s : Stmt) : bool :=
  match s with
  | Insert _ _ _ | Update _ _ _ | Delete _ | InsertOrReplace _ _ _ => true
  | _ => false
  end.

(** ** Exceptions, the world and the monad of the module's functions *)

Inductive exn :=
  | ValueError (msg : string)
  | ClientError (code : string)
  | RemoteFailure (what : string)
  | OperationalError (msg : string)
  | IntegrityError (msg : string).

Inductive result (A : Type) :=
  | Ok (a : A)
  | Raise (e : exn).
Arguments Ok {A} a.
Arguments Raise {A} e.

Inductive Event :=
  | EvSql (s : Stmt)
  | EvCommit
  | EvUpload (key : string) (sz : Z)
  | EvPrint (line : string).

(** [db_exists]: whether the file DATABASE_FILE exists; [db_file]: the
    committed content of its table [s3_files], [None] while the table does
    not exist; [ticks]: how often the clock was read; [trace]: what the
    process did so far, oldest first. *)
Record World := mkWorld {
  db_exists : bool;
  db_file : option (gmap string Row);
  ticks : nat;
  trace : list Event
}.

Definition M (A : Type) : Type := World -> result A * World.

Definition ret {A} (a : A) : M A := fun w => (Ok a, w).
Definition raise {A} (e : exn) : M A := fun w => (Raise e, w).
Definition bind {A B} (m : M A) (k : A -> M B) : M B :=
  fun w => match m w with
           | (Ok a, w') => k a w'
           | (Raise e, w') => (Raise e, w')
           end.
(** [try: m except e: h e] *)
Definition try_except {A} (m : M A) (h : exn -> M A) : M A :=
  fun w => match m w with
           | (Ok a, w') => (Ok a, w')
           | (Raise e, w') => h e w'
           end.

Declare Scope py_scope.
Delimit Scope py_scope with py.
Notation "'let*' x := m 'in' k" := (bind m (fun x => k))
  (at level 10, x name, m at level 100, k at level 200) : py_scope.
Notation "'do' m 'then' k" := (bind m (fun _ => k))
  (at level 10, m at level 100, k at level 200) : py_scope.
Local Open Scope py_scope.

Definition emit (e : Event) : M unit :=
  fun w => (Ok tt,
            mkWorld (db_exists w) (db_file w) (ticks w) (trace w ++ [e])).
Definition print (line : string) : M unit := emit (EvPrint line).

(** [for x in l: body], threading the value [a] the body rebinds. *)
Fixpoint for_each {X A} (l : list X) (a : A) (body : A -> X -> M A) : M A :=
  match l with
  | [] => ret a
  | x :: l' => let* a' := body a x in for_each l' a' body
  end.

Definition eval {A} (m : M A) (w : World) : result A := fst (m w).
Definition exec {A} (m : M A) (w : World) : World := snd (m w).

(** ** The [sqlite3] connection *)

Definition no_such_table : exn := OperationalError "no such table: s3_files".
Definition unique_failed : exn :=
  IntegrityError "UNIQUE constraint failed: s3_files.filename".

(** One statement on the table as a connection sees it; [filename] is the
    primary key, so a plain INSERT of a present key fails. *)
Definition run_stmt (s : Stmt) (db : option (gmap string Row))
  : result (option (gmap string Row)) :=
  match db with
  | None =>
      match s with
      | CreateTableIfNotExists => Ok (Some ∅)
      | _ => Raise no_such_table
      end
  | Some t =>
      match s with
      | CreateTableIfNotExists | SelectAll | SelectExact _ _ => Ok (Some t)
      | Insert k sz ts =>
          match t !! k with
          | Some _ => Raise unique_failed
          | None => Ok (Some (<[k := mkRow sz ts]> t))
          end
      | Update sz ts k => Ok (Some (alter (fun _ => mkRow sz ts) k t))
      | Delete k => Ok (Some (delete k t))
      | InsertOrReplace k sz ts => Ok (Some (<[k := mkRow sz ts]> t))
      end
  end.

(** A connection holds its own view of the table: the committed content
    when it was opened plus its uncommitted statements. No other
    connection commits while one of this module's connections is open. *)
Record Connection := mkConn { view : option (gmap string Row) }.

(** [sqlite3.connect(DATABASE_FILE)] creates the file when it is missing. *)
Definition sqlite3_connect : M Connection :=
  fun w => (Ok (mkConn (db_file w)),
            mkWorld true (db_file w) (ticks w) (trace w)).

Definition os_path_exists_database : M bool :=
  fun w => (Ok (db_exists w), w).

Definition cursor_execute (conn : Connection) (s : Stmt) : M Connection :=
  fun w => match run_stmt s (view conn) with
           | Ok v => (Ok (mkConn v),
                      mkWorld (db_exists w) (db_file w) (ticks w)
                        (trace w ++ [EvSql s]))
           | Raise e => (Raise e, w)
           end.

Definition conn_commit (conn : Connection) : M unit :=
  fun w => (Ok tt,
            mkWorld (db_exists w) (view conn) (ticks w) (trace w ++ [EvCommit])).

(** Closing drops what was not committed. *)
Definition conn_close (conn : Connection) : M unit := ret tt.

(** The rows of [SELECT filename, size FROM s3_files]. *)
Definition rows_filename_size (conn : Connection) : list (string * Z) :=
  match view conn with
  | Some t => (fun kr => (kr.1, size kr.2)) <$> map_to_list t
  | None => []
  end.

(** The first row of
    [SELECT filename, size FROM s3_files WHERE filename = ? AND size = ?]. *)
Definition row_exact (conn : Connection) (k : string) (sz : Z)
  : option (string * Z) :=
  match view conn with
  | Some t =>
      match t !! k with
      | Some r => if size r =? sz then Some (k, size r) else None
      | None => None
      end
  | None => None
  end.

Definition fetchall_filename_size (conn : Connection) : M (list (string * Z)) :=
  let* conn := cursor_execute conn SelectAll in ret (rows_filename_size conn).

Definition fetchone_exact (conn : Connection) (k : string) (sz : Z)
  : M (option (string * Z)) :=
  let* conn := cursor_execute conn (SelectExact k sz) in
  ret (row_exact conn k sz).

(** ** Python dictionaries with string keys, in insertion order *)

Fixpoint dict_set {V} (d : list (string * V)) (k : string) (v : V)
  : list (string * V) :=
  match d with
  | [] => [(k, v)]
  | (k', v') :: d' =>
      if String.eqb k' k then (k', v) :: d' else (k', v') :: dict_set d' k v
  end.

Fixpoint dict_get {V} (d : list (string * V)) (k : string) : option V :=
  match d with
  | [] => None
  | (k', v') :: d' => if String.eqb k' k then Some v' else dict_get d' k
  end.

Definition dict_mem {V} (d : list (string * V)) (k : string) : bool :=
  match dict_get d k with Some _ => true | None => false end.

(** [{k: v for (k, v) in items}] *)
Definition dict_of_items {V} (items : list (string * V)) : list (string * V) :=
  fold_left (fun d kv => dict_set d (fst kv) (snd kv)) items [].

(** ** The bucket listing and the data directory *)

Record S3Object := mkS3Object { Key : string; Size : Z }.

(** The response of [list_objects_v2]; an empty bucket has no 'Contents'. *)
Record ListResponse := mkListResponse { Contents : option (list S3Object) }.

#[local] Set Warnings "-register-all".
Inductive Node :=
  | RegularFile (st_size : Z)
  | Directory (entries : list (string * Node))
  | OtherNode.
#[local] Set Warnings "register-all".

(** ** The module's functions *)

Section S3Manager.

(** [config.DATABASE_FILE] and [config.DT_RULE]; the clock ([clock n] is
    what the [n]-th call of [datetime.now()] returns); the outcome of
    [s3.list_objects_v2(Bucket=BUCKET_NAME)]; and whether [s3.upload_file]
    fails for a key in a given world. *)
Variable DATABASE_FILE : string.
Variable DT_RULE : string.
Variable clock : nat -> datetime.
Variable s3_list_objects_v2 : result ListResponse.
Variable upload_fault : World -> string -> option exn.

Definition datetime_now : M datetime :=
  fun w => (Ok (clock (ticks w)),
            mkWorld (db_exists w) (db_file w) (S (ticks w)) (trace w)).

Definition list_objects_v2 : M ListResponse :=
  fun w => (s3_list_objects_v2, w).

Definition s3_upload_file (st_size : Z) (key : string) : M unit :=
  fun w => match upload_fault w key with
           | Some e => (Raise e, w)
           | None => emit (EvUpload key st_size) w
           end.

Definition format_datetime : M string :=
  let* now := datetime_now in
  if String.eqb DT_RULE "seconds" then ret (strftime now "%Y%m%d%H%M%S")
  else if String.eqb DT_RULE "hours" then ret (strftime now "%Y%m%d%H")
  else if String.eqb DT_RULE "days" then ret (strftime now "%Y%m%d")
  else if String.eqb DT_RULE "weeks" then ret (strftime now "%Y%U")
  else if String.eqb DT_RULE "months" then ret (strftime now "%Y%m")
  else if String.eqb DT_RULE "years" then ret (strftime now "%Y")
  else if String.eqb DT_RULE "never" then ret ""
  else raise (ValueError "Invalid DT_RULE value").

Definition ensure_database_exists : M unit :=
  let* present := os_path_exists_database in
  do (if negb present
      then print ("Database file " +:+ DATABASE_FILE
                    +:+ " does not exist. Creating it now.")
      else ret tt) then
  let* conn := sqlite3_connect in
  let* conn := cursor_execute conn CreateTableIfNotExists in
  do conn_commit conn then
  conn_close conn.

(** The two layouts of the key: [f"{mac}/{datetime_str}/{filename}"] and
    [f"{mac}/{filename}"]; an empty string is falsy. *)
Definition s3_filename_of (mac datetime_str filename : string) : string :=
  if negb (String.eqb datetime_str "")
  then mac +:+ "/" +:+ datetime_str +:+ "/" +:+ filename
  else mac +:+ "/" +:+ filename.

Definition build_s3_filename (mac filename : string) : M string :=
  let* datetime_str := format_datetime in
  ret (s3_filename_of mac datetime_str filename).

Definition now_strftime (fmt : string) : M string :=
  let* now := datetime_now in ret (strftime now fmt).

(** The body of the first loop of [update_local_database]. *)
Definition upsert_entry (existing_files : list (string * Z))
    (conn : Connection) (item : string * Z) : M Connection :=
  let filename := item.1 in
  let sz := item.2 in
  let* updated_at := now_strftime DATETIME_FORMAT in
  match dict_get existing_files filename with
  | Some old =>
      if negb (old =? sz) then
        let* conn := cursor_execute conn (Update sz updated_at filename) in
        do print ("Updated file in database: " +:+ filename) then
        ret conn
      else ret conn
  | None =>
      let* conn := cursor_execute conn (Insert filename sz updated_at) in
      do print ("Added to database: " +:+ filename) then
      ret conn
  end.

(** The body of its second loop. *)
Definition delete_entry (current_files : list (string * Z))
    (conn : Connection) (filename : string) : M Connection :=
  if negb (dict_mem current_files filename) then
    let* conn := cursor_execute conn (Delete filename) in
    do print ("Deleted from database: " +:+ filename) then
    ret conn
  else ret conn.

(** The [try] around the listing: [Some] of the objects, or [None] when
    the handler returns from the function. *)
Definition fetch_listing : M (option (list S3Object)) :=
  try_except
    (let* resp := list_objects_v2 in
     ret (Some (default [] (Contents resp))))
    (fun e =>
       match e with
       | ClientError code =>
           if String.eqb code "AllAccessDisabled" then
             do print "Access to the S3 bucket is disabled. Please check permissions." then
             ret None
           else raise e
       | _ => raise e
       end).

Definition update_local_database : M unit :=
  do ensure_database_exists then
  let* conn := sqlite3_connect in
  let* listing := fetch_listing in
  match listing with
  | None => ret tt
  | Some s3_files =>
      let* rows := fetchall_filename_size conn in
      let existing_files := dict_of_items rows in
      let current_files :=
        dict_of_items ((fun file => (Key file, Size file)) <$> s3_files) in
      let* conn := for_each current_files conn (upsert_entry existing_files) in
      let* conn := for_each existing_files.*1 conn (delete_entry current_files) in
      do conn_commit conn then
      conn_close conn
  end.

Definition needFile (mac filename : string) (sz : Z) : M bool :=
  let* conn := sqlite3_connect in
  let* s3_filename := build_s3_filename mac filename in
  let* result := fetchone_exact conn s3_filename sz in
  do conn_close conn then
  ret (match result with None => true | Some _ => false end).

(** One file of a MAC address folder. *)
Definition upload_entry (mac : string) (conn : Connection)
    (entry : string * Node) : M Connection :=
  let filename := entry.1 in
  match entry.2 with
  | RegularFile sz =>
      let* need := needFile mac filename sz in
      if need then
        let* s3_key := build_s3_filename mac filename in
        do s3_upload_file sz s3_key then
        do print ("Uploaded: " +:+ s3_key) then
        let* updated_at := now_strftime DATETIME_FORMAT in
        cursor_execute conn (InsertOrReplace s3_key sz updated_at)
      else ret conn
  | _ => ret conn
  end.

(** One entry of the data directory. *)
Definition upload_folder (conn : Connection) (entry : string * Node)
  : M Connection :=
  let mac := entry.1 in
  match entry.2 with
  | Directory files => for_each files conn (upload_entry mac)
  | _ => ret conn
  end.

Definition upload_files (data_directory : list (string * Node)) : M unit :=
  let* conn := sqlite3_connect in
  let* conn := for_each data_directory conn upload_folder in
  do conn_commit conn then
  conn_close conn.

End S3Manager.

(** ** Notions the specification uses *)

(** The granularities the specification enumerates. *)
Definition GRANULARITIES : list string :=
  ["seconds"; "hours"; "days"; "weeks"; "months"; "years"; "never"].

(** The separator of the key's components. *)
Fixpoint has_slash (s : string) : bool :=
  match s with
  | EmptyString => false
  | String c s' => Ascii.eqb c "/" || has_slash s'
  end.

(** The calendar period of a moment at a granularity: two moments are on
    opposite sides of a boundary of the granularity when their periods
    differ. Weeks start on Sunday, as [%U] has them, and are counted from
    the first day of the proleptic calendar. *)
Definition period (rule : string) (t : datetime) : list Z :=
  if String.eqb rule "seconds"
  then [year t; month t; day t; hour t; minute t; second t]
  else if String.eqb rule "hours" then [year t; month t; day t; hour t]
  else if String.eqb rule "days" then [year t; month t; day t]
  else if String.eqb rule "weeks" then [toordinal t / 7]
  else if String.eqb rule "months" then [year t; month t]
  else if String.eqb rule "years" then [year t]
  else [].

(** The [strftime] format of each granularity that has a time bucket. *)
Definition BUCKET_FORMATS : list (string * string) :=
  [("seconds", "%Y%m%d%H%M%S"); ("hours", "%Y%m%d%H"); ("days", "%Y%m%d");
   ("weeks", "%Y%U"); ("months", "%Y%m"); ("years", "%Y")].

(** [list_all()] of the Metadata Cache: the (identity, size) pairs. *)
Definition list_all (db : option (gmap string Row)) : list (string * Z) :=
  rows_filename_size (mkConn db).

(** The inserts, updates and deletes among the events of a run. *)
Definition mutations (evs : list Event) : list Stmt :=
  omap (fun e => match e with
                 | EvSql s => if is_mutation s then Some s else None
                 | _ => None
                 end) evs.

(** An event about the identity [id] and the size [sz]: the decision's
    query, the transfer, its progress line, or the cache record. *)
Definition concerns (id : string) (sz : Z) (e : Event) : Prop :=
  match e with
  | EvSql (SelectExact k s) | EvUpload k s | EvSql (InsertOrReplace k s _) =>
      k = id /\ s = sz
  | EvPrint line => line = "Uploaded: " +:+ id
  | _ => False
  end.

(** Every cache record written by INSERT OR REPLACE comes after the
    successful transfer of the same identity and size. *)
Definition upserts_follow_uploads (evs : list Event) : Prop :=
  forall i k sz ts,
    evs !! i = Some (EvSql (InsertOrReplace k sz ts)) ->
    exists j, (j < i)%nat /\ evs !! j = Some (EvUpload k sz).

(** What [ensure_database_exists] prints, if anything. *)
Definition creation_notice (DATABASE_FILE : string) (w : World) : list Event :=
  if db_exists w then []
  else [EvPrint ("Database file " +:+ DATABASE_FILE
                   +:+ " does not exist. Creating it now.")].

(** The events of a walk before its commit. *)
Definition walk_events (evs : list Event) : Prop :=
  upserts_follow_uploads evs /\ EvCommit ∉ evs.

(** The (identity, size) pairs of a bucket listing. *)
Definition listing (resp : ListResponse) : list (string * Z) :=
  (fun file => (Key file, Size file)) <$> default [] (Contents resp).

(** The records of the cache, none while the table is missing. *)
Definition records (db : option (gmap string Row)) : gmap string Row :=
  default ∅ db.

(** ** Sample inputs *)

(** Saturday 30 December 2023 at the first reading, the Sunday after it
    from then on. *)
Definition sample_clock (n : nat) : datetime :=
  match n with
  | O => mkDatetime 2023 12 30 23 59 59 0
  | _ => mkDatetime 2023 12 31 0 0 0 0
  end.

Definition sample_listing : ListResponse :=
  mkListResponse
    (Some [mkS3Object "dev1/bucket1/a.txt" 10; mkS3Object "dev1/b.txt" 3]).

Definition fresh_world : World := mkWorld false None 0 [].

Definition sample_world : World :=
  mkWorld true (Some {[ "dev1/bucket1/a.txt" := mkRow 10 "2023-01-01T00:00:%";
                   "dev1/gone.txt" := mkRow 4 "2023-01-01T00:00:%" ]}) 0 [].

Definition sample_directory : list (string * Node) :=
  [("dev1", Directory [("a.txt", RegularFile 10); ("b.txt", RegularFile 3)]);
   ("notes.txt", RegularFile 1)].

(** The transfer of [dev1/b.txt] fails, any other succeeds. *)
Definition sample_fault (w : World) (key : string) : option exn :=
  if String.eqb key "dev1/b.txt" then Some (RemoteFailure "S3UploadFailedError")
  else None.

(** ** Further notions *)

(** The size a listing gives last for a key. *)
Definition last_size (l : list (string * Z)) (k : string) : option Z :=
  snd <$> last (filter (fun p => p.1 = k) l).




(** The entries [upload_files] looks at: the folders of the data
    directory, each with its regular files only. *)
Definition is_regular (n : Node) : bool :=
  match n with RegularFile _ => true | _ => false end.

Definition prune_folder (entry : string * Node) : option (string * Node) :=
  match entry.2 with
  | Directory files =>
      Some (entry.1, Directory (filter (fun f => is_regular f.2 = true) files))
  | _ => None
  end.

Definition prune (data_directory : list (string * Node))
  : list (string * Node) :=
  omap prune_folder data_directory.

(** The files of a walk, in its order: folder, name and size. *)
Definition folder_files (entry : string * Node) : list (string * string * Z) :=
  match entry.2 with
  | Directory files =>
      omap (fun f => match f.2 with
                     | RegularFile sz => Some (entry.1, f.1, sz)
                     | _ => None
                     end) files
  | _ => []
  end.

Definition walk_files (data_directory : list (string * Node))
  : list (string * string * Z) :=
  data_directory ≫= folder_files.

(** The table after the INSERT OR REPLACE statements among the events. *)
Definition replay (evs : list Event) (v : option (gmap string Row))
  : option (gmap string Row) :=
  fold_left (fun v e =>
               match e with
               | EvSql (InsertOrReplace k sz ts) =>
                   match run_stmt (InsertOrReplace k sz ts) v with
                   | Ok v' => v'
                   | Raise _ => v
                   end
               | _ => v
               end) evs v.

(** Every successful transfer is followed by the cache record of the same
    identity and size. *)
Definition uploads_recorded (evs : list Event) : Prop :=
  forall j k sz,
    evs !! j = Some (EvUpload k sz) ->
    exists i ts, (j < i)%nat /\
      evs !! i = Some (EvSql (InsertOrReplace k sz ts)).

(** What holds of an iteration, and of a loop, that returned normally with
    the connection [conn'] after the events [evs]. *)
Definition recorded_run (conn : Connection) (evs : list Event)
    (conn' : Connection) : Prop :=
  view conn' = replay evs (view conn) /\
  uploads_recorded evs /\ EvCommit ∉ evs.




(** The last second of Sunday 31 December 2023, then Monday 1 January
    2024: two days of one calendar week. *)
Definition new_year_clock (n : nat) : datetime :=
  match n with
  | O => mkDatetime 2023 12 31 23 59 59 0
  | _ => mkDatetime 2024 1 1 0 0 0 0
  end.

(** Every transfer succeeds. *)
Definition no_fault (w : World) (key : string) : option exn := None.

(** * Properties *)

(** ** Strings of fixed-width decimal fields *)

Lemma append_cancel_l (a x y : string) : a +:+ x = a +:+ y -> x = y.
Proof.
  induction a as [|c a IH]; simpl; [done|].
  intros H. injection H as H. auto.
Qed.

Lemma append_inj_length (a a' b b' : string) :
  String.length a = String.length a' ->
  a +:+ b = a' +:+ b' -> a = a' /\ b = b'.
Proof.
  revert a'. induction a as [|c a IH]; intros [|c' a'] Hlen H;
    simpl in *; try discriminate; [done|].
  injection H as -> H. injection Hlen as Hlen.
  destruct (IH a' Hlen H) as [-> ->]. done.
Qed.

Lemma digit_inj (a b : Z) : digit a = digit b -> a mod 10 = b mod 10.
Proof.
  unfold digit. intros H.
  pose proof (Z.mod_pos_bound a 10 ltac:(lia)).
  pose proof (Z.mod_pos_bound b 10 ltac:(lia)).
  apply (f_equal nat_of_ascii) in H.
  rewrite !nat_ascii_embedding in H by lia. lia.
Qed.

Lemma pad2_length (n : Z) : String.length (pad2 n) = 2%nat.
Proof. reflexivity. Qed.

Lemma pad4_length (n : Z) : String.length (pad4 n) = 4%nat.
Proof. reflexivity. Qed.

Lemma pad2_inj (a b : Z) :
  0 <= a < 100 -> 0 <= b < 100 -> pad2 a = pad2 b -> a = b.
Proof.
  intros Ha Hb H. unfold pad2 in H. injection H as H1 H2.
  apply digit_inj in H1, H2.
  rewrite (Z.mod_small (a / 10)), (Z.mod_small (b / 10)) in H1
    by (split; [apply Z.div_pos|apply Z.div_lt_upper_bound]; lia).
  rewrite (Z.div_mod a 10), (Z.div_mod b 10) by lia. lia.
Qed.

Lemma pad4_inj (a b : Z) :
  0 <= a < 10000 -> 0 <= b < 10000 -> pad4 a = pad4 b -> a = b.
Proof.
  intros Ha Hb H. unfold pad4 in H.
  apply append_inj_length in H as [H1 H2]; [|by rewrite !pad2_length].
  apply pad2_inj in H1, H2;
    try (split; [apply Z.div_pos|apply Z.div_lt_upper_bound]; lia);
    try (apply Z.mod_pos_bound; lia).
  rewrite (Z.div_mod a 100), (Z.div_mod b 100) by lia. lia.
Qed.

Lemma pad4_append_inj (a b : Z) (x y : string) :
  0 <= a < 10000 -> 0 <= b < 10000 ->
  pad4 a +:+ x = pad4 b +:+ y -> a = b /\ x = y.
Proof.
  intros Ha Hb H.
  apply append_inj_length in H as [H1 H2]; [|by rewrite !pad4_length].
  split; [by apply pad4_inj|done].
Qed.

Lemma pad2_append_inj (a b : Z) (x y : string) :
  0 <= a < 100 -> 0 <= b < 100 ->
  pad2 a +:+ x = pad2 b +:+ y -> a = b /\ x = y.
Proof.
  intros Ha Hb H.
  apply append_inj_length in H as [H1 H2]; [|by rewrite !pad2_length].
  split; [by apply pad2_inj|done].
Qed.

(** ** The calendar *)

Lemma days_before_month_bounds (y m : Z) :
  1 <= m <= 12 -> 0 <= days_before_month y m <= 335.
Proof.
  intros Hm.
  assert (m = 1 \/ m = 2 \/ m = 3 \/ m = 4 \/ m = 5 \/ m = 6 \/ m = 7 \/
          m = 8 \/ m = 9 \/ m = 10 \/ m = 11 \/ m = 12) as Hc by lia.
  unfold days_before_month.
  repeat (destruct Hc as [->|Hc]); try subst m;
    destruct (is_leap y); simpl; lia.
Qed.

Lemma days_in_month_bounds (y m : Z) :
  1 <= m <= 12 -> 28 <= days_in_month y m <= 31.
Proof.
  intros Hm.
  assert (m = 1 \/ m = 2 \/ m = 3 \/ m = 4 \/ m = 5 \/ m = 6 \/ m = 7 \/
          m = 8 \/ m = 9 \/ m = 10 \/ m = 11 \/ m = 12) as Hc by lia.
  unfold days_in_month.
  repeat (destruct Hc as [->|Hc]); try subst m;
    destruct (is_leap y); simpl; lia.
Qed.

Lemma week_U_bounds (t : datetime) : valid_datetime t -> 0 <= week_U t < 100.
Proof.
  intros (_ & Hm & Hd & _).
  pose proof (days_before_month_bounds (year t) _ Hm).
  pose proof (days_in_month_bounds (year t) _ Hm).
  unfold week_U, tm_wday, tm_yday.
  pose proof (Z.mod_pos_bound (weekday t + 1) 7 ltac:(lia)).
  split; [apply Z.div_pos|apply Z.div_lt_upper_bound]; lia.
Qed.

(** Within one year, [%U] tells the Sunday-started weeks apart. *)
Lemma week_U_same_year (t1 t2 : datetime) :
  year t1 = year t2 -> week_U t1 = week_U t2 ->
  toordinal t1 / 7 = toordinal t2 / 7.
Proof.
  unfold week_U, tm_wday, weekday, tm_yday, toordinal, ymd2ord.
  intros ->.
  generalize (days_before_year (year t2)).
  generalize (days_before_month (year t2) (month t1)).
  generalize (days_before_month (year t2) (month t2)).
  intros a b c. Z.div_mod_to_equations. lia.
Qed.

(** ** The time bucket and the key *)

Lemma format_datetime_eval (rule : string) (clock : nat -> datetime) (w : World) :
  eval (format_datetime rule clock) w =
    let now := clock (ticks w) in
    if String.eqb rule "seconds" then Ok (strftime now "%Y%m%d%H%M%S")
    else if String.eqb rule "hours" then Ok (strftime now "%Y%m%d%H")
    else if String.eqb rule "days" then Ok (strftime now "%Y%m%d")
    else if String.eqb rule "weeks" then Ok (strftime now "%Y%U")
    else if String.eqb rule "months" then Ok (strftime now "%Y%m")
    else if String.eqb rule "years" then Ok (strftime now "%Y")
    else if String.eqb rule "never" then Ok ""
    else Raise (ValueError "Invalid DT_RULE value").
Proof.
  unfold eval, format_datetime, bind, datetime_now; simpl.
  repeat (match goal with |- context [String.eqb ?a ?b] =>
            destruct (String.eqb a b) end; [reflexivity|]).
  reflexivity.
Qed.

(** Reading the clock is all that [format_datetime] does to the world. *)
Lemma format_datetime_exec (rule : string) (clock : nat -> datetime) (w : World) :
  exec (format_datetime rule clock) w =
    mkWorld (db_exists w) (db_file w) (S (ticks w)) (trace w).
Proof.
  unfold exec, format_datetime, bind, datetime_now; simpl.
  repeat (match goal with |- context [String.eqb ?a ?b] =>
            destruct (String.eqb a b) end; [reflexivity|]).
  reflexivity.
Qed.

Lemma build_s3_filename_eval (rule : string) (clock : nat -> datetime)
    (mac filename : string) (w : World) :
  eval (build_s3_filename rule clock mac filename) w =
    match eval (format_datetime rule clock) w with
    | Ok b => Ok (s3_filename_of mac b filename)
    | Raise e => Raise e
    end.
Proof.
  unfold eval, build_s3_filename, bind.
  destruct (format_datetime rule clock w) as [[b|e] w']; reflexivity.
Qed.

Lemma build_s3_filename_exec (rule : string) (clock : nat -> datetime)
    (mac filename : string) (w : World) :
  exec (build_s3_filename rule clock mac filename) w =
    mkWorld (db_exists w) (db_file w) (S (ticks w)) (trace w).
Proof.
  rewrite <- (format_datetime_exec rule clock w).
  unfold exec, build_s3_filename, bind.
  destruct (format_datetime rule clock w) as [[b|e] w']; reflexivity.
Qed.

Lemma elem_of_GRANULARITIES (rule : string) :
  rule ∈ GRANULARITIES <->
  rule = "seconds" \/ rule = "hours" \/ rule = "days" \/ rule = "weeks" \/
  rule = "months" \/ rule = "years" \/ rule = "never".
Proof.
  unfold GRANULARITIES. rewrite !elem_of_cons, elem_of_nil. tauto.
Qed.

Lemma format_datetime_enumerated (rule : string) (clock : nat -> datetime)
    (w : World) :
  rule ∈ GRANULARITIES -> exists b, eval (format_datetime rule clock) w = Ok b.
Proof.
  rewrite format_datetime_eval, elem_of_GRANULARITIES. cbv zeta.
  intros Hin.
  repeat (match goal with |- context [String.eqb ?a ?b] =>
            destruct (String.eqb_spec a b) as [->|?] end; [eauto|]).
  exfalso; tauto.
Qed.

(** C9: the time bucket, and with it the key, is computed without an
    exception exactly for the seven enumerated granularities; for any
    other value of DT_RULE the call raises the configuration error
    ([ValueError("Invalid DT_RULE value")]). *)
Theorem format_datetime_raises_iff_not_enumerated
    (rule : string) (clock : nat -> datetime) (w : World) (mac filename : string) :
  (eval (format_datetime rule clock) w
     = Raise (ValueError "Invalid DT_RULE value") <-> rule ∉ GRANULARITIES) /\
  ((exists b, eval (format_datetime rule clock) w = Ok b)
     <-> rule ∈ GRANULARITIES) /\
  (eval (build_s3_filename rule clock mac filename) w
     = Raise (ValueError "Invalid DT_RULE value") <-> rule ∉ GRANULARITIES) /\
  ((exists key, eval (build_s3_filename rule clock mac filename) w = Ok key)
     <-> rule ∈ GRANULARITIES).
Proof.
  rewrite build_s3_filename_eval, format_datetime_eval.
  rewrite elem_of_GRANULARITIES. cbv zeta.
  repeat (match goal with |- context [String.eqb ?a ?b] =>
            destruct (String.eqb_spec a b) as [->|?] end;
          [repeat split; intros; try discriminate; eauto 10;
           try (exfalso; tauto) | ]).
  repeat split; try tauto; try discriminate.
  all: intros [? ?]; discriminate.
Qed.

Lemma strftime_seconds (t : datetime) :
  strftime t "%Y%m%d%H%M%S" =
    pad4 (year t) +:+ pad2 (month t) +:+ pad2 (day t) +:+ pad2 (hour t)
    +:+ pad2 (minute t) +:+ pad2 (second t) +:+ "".
Proof. reflexivity. Qed.

Lemma strftime_hours (t : datetime) :
  strftime t "%Y%m%d%H" =
    pad4 (year t) +:+ pad2 (month t) +:+ pad2 (day t) +:+ pad2 (hour t) +:+ "".
Proof. reflexivity. Qed.

Lemma strftime_days (t : datetime) :
  strftime t "%Y%m%d" =
    pad4 (year t) +:+ pad2 (month t) +:+ pad2 (day t) +:+ "".
Proof. reflexivity. Qed.

Lemma strftime_weeks (t : datetime) :
  strftime t "%Y%U" = pad4 (year t) +:+ pad2 (week_U t) +:+ "".
Proof. reflexivity. Qed.

Lemma strftime_months (t : datetime) :
  strftime t "%Y%m" = pad4 (year t) +:+ pad2 (month t) +:+ "".
Proof. reflexivity. Qed.

Lemma strftime_years (t : datetime) : strftime t "%Y" = pad4 (year t) +:+ "".
Proof. reflexivity. Qed.

Lemma s3_filename_of_empty (mac filename : string) :
  s3_filename_of mac "" filename = mac +:+ "/" +:+ filename.
Proof. reflexivity. Qed.

Lemma s3_filename_of_nonempty (mac datetime_str filename : string) :
  datetime_str <> "" ->
  s3_filename_of mac datetime_str filename
    = mac +:+ "/" +:+ datetime_str +:+ "/" +:+ filename.
Proof. destruct datetime_str; [done|reflexivity]. Qed.

(** A bucket of an enumerated granularity other than "never" starts with
    the four digits of the year. *)
Lemma format_datetime_nonempty (rule : string) (clock : nat -> datetime)
    (w : World) (b : string) :
  rule <> "never" -> eval (format_datetime rule clock) w = Ok b -> b <> "".
Proof.
  intros Hn. rewrite format_datetime_eval. cbv zeta.
  repeat (match goal with |- context [String.eqb ?a ?b] =>
            destruct (String.eqb_spec a b) as [->|?] end;
          [intros [= <-]; try done|]).
  discriminate.
Qed.

Lemma has_slash_append (a b : string) : has_slash (a +:+ "/" +:+ b) = true.
Proof.
  change (has_slash (a +:+ String "/" b) = true).
  induction a as [|c a IH]; simpl; [done|]. by rewrite IH, orb_true_r.
Qed.

(** A string splits in one way only at the first separator. *)
Lemma split_at_slash (a a' b b' : string) :
  has_slash a = false -> has_slash a' = false ->
  a +:+ String "/" b = a' +:+ String "/" b' -> a = a' /\ b = b'.
Proof.
  revert a'. induction a as [|c a IH]; intros [|c' a']; simpl; intros Ha Ha' H.
  - by injection H as ->.
  - injection H as <- _. by rewrite Ascii.eqb_refl in Ha'.
  - injection H as -> _. by rewrite Ascii.eqb_refl in Ha.
  - injection H as -> H.
    apply orb_false_elim in Ha as [_ Ha]. apply orb_false_elim in Ha' as [_ Ha'].
    destruct (IH a' Ha Ha' H) as [-> ->]. done.
Qed.

Lemma s3_filename_of_inj (m1 b1 f1 m2 b2 f2 : string) :
  has_slash m1 = false -> has_slash b1 = false -> has_slash f1 = false ->
  has_slash m2 = false -> has_slash b2 = false -> has_slash f2 = false ->
  s3_filename_of m1 b1 f1 = s3_filename_of m2 b2 f2 ->
  m1 = m2 /\ b1 = b2 /\ f1 = f2.
Proof.
  intros Hm1 Hb1 Hf1 Hm2 Hb2 Hf2.
  destruct (decide (b1 = "")) as [->|N1], (decide (b2 = "")) as [->|N2];
    rewrite ?s3_filename_of_empty, ?s3_filename_of_nonempty by done;
    simpl; intros H; apply split_at_slash in H as [-> H]; try done.
  - apply (f_equal has_slash) in H.
    rewrite has_slash_append in H. congruence.
  - apply (f_equal has_slash) in H.
    rewrite has_slash_append in H. congruence.
  - apply split_at_slash in H as [-> ->]; done.
Qed.

(** C4: with granularity "never" the key is [source_id/name]; with any
    other enumerated granularity the time bucket is not empty and the key
    is [source_id/time_bucket/name]; and two triples of components without
    the separator that give the same key are the same triple. *)
Theorem build_s3_filename_format_and_injective :
  (forall clock w mac filename,
     eval (build_s3_filename "never" clock mac filename) w
       = Ok (mac +:+ "/" +:+ filename)) /\
  (forall rule clock w mac filename,
     rule ∈ GRANULARITIES -> rule <> "never" ->
     exists time_bucket,
       eval (format_datetime rule clock) w = Ok time_bucket /\
       time_bucket <> "" /\
       eval (build_s3_filename rule clock mac filename) w
         = Ok (mac +:+ "/" +:+ time_bucket +:+ "/" +:+ filename)) /\
  (forall m1 b1 f1 m2 b2 f2,
     has_slash m1 = false -> has_slash b1 = false -> has_slash f1 = false ->
     has_slash m2 = false -> has_slash b2 = false -> has_slash f2 = false ->
     (m1, f1, b1) <> (m2, f2, b2) ->
     s3_filename_of m1 b1 f1 <> s3_filename_of m2 b2 f2).
Proof.
  split; [|split].
  - intros. by rewrite build_s3_filename_eval, format_datetime_eval.
  - intros rule clock w mac filename Hin Hn.
    destruct (format_datetime_enumerated rule clock w Hin) as [b Hb]. exists b.
    pose proof (format_datetime_nonempty _ _ _ _ Hn Hb) as Hne.
    by rewrite build_s3_filename_eval, Hb, s3_filename_of_nonempty.
  - intros m1 b1 f1 m2 b2 f2 ? ? ? ? ? ? Hne Heq. apply Hne.
    apply s3_filename_of_inj in Heq as (-> & -> & ->); done.
Qed.

Lemma build_s3_filename_format_and_injective_witness :
  s3_filename_of "dev1" "" "a.txt" <> s3_filename_of "dev1" "2024" "a.txt".
Proof.
  apply (proj2 (proj2 build_s3_filename_format_and_injective));
    try reflexivity.
  discriminate.
Defined.

(** ** Keys across time *)

Lemma format_datetime_bucket_format (rule : string) :
  rule ∈ GRANULARITIES -> rule <> "never" ->
  exists fmt, (rule, fmt) ∈ BUCKET_FORMATS /\
    forall clock w,
      eval (format_datetime rule clock) w = Ok (strftime (clock (ticks w)) fmt).
Proof.
  rewrite elem_of_GRANULARITIES. unfold BUCKET_FORMATS.
  intros Hin Hn.
  repeat (destruct Hin as [->|Hin]; [eexists; split;
    [repeat (first [apply list_elem_of_here | apply list_elem_of_further])
    | reflexivity] | ]).
  done.
Qed.

Ltac split_fields H :=
  repeat match type of H with
  | pad4 _ +:+ _ = pad4 _ +:+ _ =>
      let E := fresh "E" in
      apply pad4_append_inj in H as [E H]; [|lia|lia]
  | pad2 _ +:+ _ = pad2 _ +:+ _ =>
      let E := fresh "E" in
      apply pad2_append_inj in H as [E H]; [|lia|lia]
  end.

(** Two valid moments with the same bucket string are in the same period. *)
Lemma strftime_period_inj (rule fmt : string) (t1 t2 : datetime) :
  (rule, fmt) ∈ BUCKET_FORMATS ->
  valid_datetime t1 -> valid_datetime t2 ->
  strftime t1 fmt = strftime t2 fmt -> period rule t1 = period rule t2.
Proof.
  unfold BUCKET_FORMATS. rewrite !elem_of_cons, elem_of_nil.
  intros Hin V1 V2.
  pose proof (week_U_bounds _ V1). pose proof (week_U_bounds _ V2).
  destruct V1 as (? & Hm1 & ? & ? & ? & ? & ?).
  destruct V2 as (? & Hm2 & ? & ? & ? & ? & ?).
  pose proof (days_in_month_bounds (year t1) _ Hm1).
  pose proof (days_in_month_bounds (year t2) _ Hm2).
  destruct Hin as [[= -> ->]|[[= -> ->]|[[= -> ->]|[[= -> ->]|
                  [[= -> ->]|[[= -> ->]|[]]]]]]]; intros Hs.
  - rewrite !strftime_seconds in Hs. split_fields Hs.
    unfold period; simpl. congruence.
  - rewrite !strftime_hours in Hs. split_fields Hs.
    unfold period; simpl. congruence.
  - rewrite !strftime_days in Hs. split_fields Hs.
    unfold period; simpl. congruence.
  - rewrite !strftime_weeks in Hs. split_fields Hs.
    unfold period; simpl. f_equal. by apply week_U_same_year.
  - rewrite !strftime_months in Hs. split_fields Hs.
    unfold period; simpl. congruence.
  - rewrite !strftime_years in Hs. split_fields Hs.
    unfold period; simpl. congruence.
Qed.

Lemma strftime_length (rule fmt : string) (t1 t2 : datetime) :
  (rule, fmt) ∈ BUCKET_FORMATS ->
  String.length (strftime t1 fmt) = String.length (strftime t2 fmt).
Proof.
  unfold BUCKET_FORMATS. rewrite !elem_of_cons, elem_of_nil.
  intros Hin.
  repeat (destruct Hin as [[= -> ->]|Hin]; [reflexivity|]). done.
Qed.

Lemma s3_filename_of_bucket_inj (src name b1 b2 : string) :
  String.length b1 = String.length b2 ->
  s3_filename_of src b1 name = s3_filename_of src b2 name -> b1 = b2.
Proof.
  intros Hlen.
  destruct (decide (b1 = "")) as [->|N1], (decide (b2 = "")) as [->|N2];
    try done.
  - by destruct b2.
  - by destruct b1.
  - rewrite (s3_filename_of_nonempty src b1), (s3_filename_of_nonempty src b2)
      by done.
    intros H. apply append_cancel_l in H. injection H as H.
    by destruct (append_inj_length _ _ _ _ Hlen H) as [-> _].
Qed.

(** C5: with granularity "never" two invocations return the same key
    whatever the clock shows at either; with any other enumerated
    granularity two invocations at (valid) moments in different periods of
    that granularity, that is on opposite sides of one of its boundaries,
    return different keys. *)
Theorem build_s3_filename_across_time :
  (forall clock w1 w2 src name,
     eval (build_s3_filename "never" clock src name) w1
       = eval (build_s3_filename "never" clock src name) w2) /\
  (forall rule clock w1 w2 src name,
     rule ∈ GRANULARITIES -> rule <> "never" ->
     valid_datetime (clock (ticks w1)) -> valid_datetime (clock (ticks w2)) ->
     period rule (clock (ticks w1)) <> period rule (clock (ticks w2)) ->
     exists k1 k2,
       eval (build_s3_filename rule clock src name) w1 = Ok k1 /\
       eval (build_s3_filename rule clock src name) w2 = Ok k2 /\
       k1 <> k2).
Proof.
  split.
  - intros. by rewrite !build_s3_filename_eval, !format_datetime_eval.
  - intros rule clock w1 w2 src name Hin Hn V1 V2 Hp.
    destruct (format_datetime_bucket_format rule Hin Hn) as (fmt & Hf & Hb).
    rewrite !build_s3_filename_eval, !Hb.
    do 2 eexists. split; [reflexivity|]. split; [reflexivity|].
    intros Hk. apply Hp.
    apply s3_filename_of_bucket_inj in Hk; [|by apply (strftime_length rule)].
    by apply (strftime_period_inj rule fmt).
Qed.

(** ** Dictionaries *)

Section dict.
Context {V : Type}.
Implicit Types (d items : list (string * V)) (k : string) (v : V).

Lemma dict_get_set d k v k' :
  dict_get (dict_set d k v) k'
    = if decide (k = k') then Some v else dict_get d k'.
Proof.
  induction d as [|[k0 v0] d IH]; simpl.
  - destruct (String.eqb_spec k k'); case_decide; congruence.
  - destruct (String.eqb_spec k0 k) as [->|Hne]; simpl.
    + destruct (String.eqb_spec k k'); case_decide; congruence.
    + rewrite IH. destruct (String.eqb_spec k0 k'); case_decide; congruence.
Qed.

Lemma dict_get_None d k : dict_get d k = None <-> k ∉ d.*1.
Proof.
  induction d as [|[k0 v0] d IH]; simpl.
  - split; [intros _; apply not_elem_of_nil|done].
  - rewrite not_elem_of_cons.
    destruct (String.eqb_spec k0 k) as [->|Hne]; [split; [done|tauto]|].
    rewrite IH. split; [intros; split; [congruence|done]|tauto].
Qed.

Lemma dict_get_is_Some d k : is_Some (dict_get d k) <-> k ∈ d.*1.
Proof.
  rewrite <- not_eq_None_Some, dict_get_None.
  destruct (decide (k ∈ d.*1)); tauto.
Qed.

Lemma dict_get_elem_of d k v :
  NoDup d.*1 -> (dict_get d k = Some v <-> (k, v) ∈ d).
Proof.
  induction d as [|[k0 v0] d IH]; simpl; intros Hnd.
  - split; [done|]. intros H. by apply elem_of_nil in H.
  - apply NoDup_cons in Hnd as [Hk0 Hnd]. rewrite elem_of_cons.
    destruct (String.eqb_spec k0 k) as [->|Hne].
    + split; [intros [= ->]; by left|].
      intros [[= ->]|Hin]; [done|].
      exfalso. apply Hk0. by apply (list_elem_of_fmap_2 fst) in Hin.
    + rewrite (IH Hnd). split; [by right|]. intros [[= -> ->]|Hin]; done.
Qed.

Lemma dict_set_keys d k v k' :
  k' ∈ (dict_set d k v).*1 <-> k' = k \/ k' ∈ d.*1.
Proof.
  rewrite <- !dict_get_is_Some, dict_get_set.
  case_decide; subst; split; eauto; intros [?|?]; try congruence; done.
Qed.

Lemma dict_set_NoDup d k v : NoDup d.*1 -> NoDup (dict_set d k v).*1.
Proof.
  induction d as [|[k0 v0] d IH]; simpl; intros Hnd.
  - apply NoDup_singleton.
  - apply NoDup_cons in Hnd as [Hk0 Hnd].
    destruct (String.eqb_spec k0 k) as [->|Hne]; simpl.
    + by apply NoDup_cons.
    + apply NoDup_cons. split; [|by apply IH].
      rewrite dict_set_keys. intros [?|?]; done.
Qed.

Lemma dict_fold_NoDup items d :
  NoDup d.*1 ->
  NoDup (fold_left (fun d kv => dict_set d (fst kv) (snd kv)) items d).*1.
Proof.
  revert d. induction items as [|[k v] items IH]; simpl; intros d Hnd; [done|].
  apply IH. by apply dict_set_NoDup.
Qed.

Lemma dict_of_items_NoDup items : NoDup (dict_of_items items).*1.
Proof. apply dict_fold_NoDup. apply NoDup_nil_2. Qed.

(** Without a repeated key the comprehension keeps every item. *)
Lemma dict_fold_get items d k v :
  NoDup items.*1 ->
  dict_get (fold_left (fun d kv => dict_set d (fst kv) (snd kv)) items d) k = Some v
  <-> (k, v) ∈ items \/ ((k ∉ items.*1) /\ dict_get d k = Some v).
Proof.
  revert d. induction items as [|[k0 v0] items IH]; simpl; intros d Hnd.
  - split; [intros; right; split; [apply not_elem_of_nil|done]|].
    intros [H|[_ H]]; [by apply elem_of_nil in H|done].
  - apply NoDup_cons in Hnd as [Hk0 Hnd].
    rewrite (IH _ Hnd), dict_get_set, elem_of_cons, not_elem_of_cons.
    case_decide as Hk; subst.
    + split.
      * intros [Hin|[_ [= ->]]]; [|by left; left].
        exfalso. apply Hk0. by apply (list_elem_of_fmap_2 fst) in Hin.
      * intros [[[= ->]|Hin]|[[? _] _]]; [by right|by left|done].
    + split.
      * intros [Hin|[? ?]]; [left; by right|right; done].
      * intros [[[= -> ->]|Hin]|[[? ?] ?]]; [done|by left|by right].
Qed.

Lemma dict_of_items_get items k v :
  NoDup items.*1 ->
  (dict_get (dict_of_items items) k = Some v <-> (k, v) ∈ items).
Proof.
  intros Hnd. unfold dict_of_items. rewrite (dict_fold_get _ _ _ _ Hnd).
  simpl. split; [intros [?|[_ ?]]; done|by left].
Qed.

End dict.

(** The dictionary built from the rows of the table is the table. *)
Lemma rows_dict_get (t : gmap string Row) (k : string) :
  dict_get (dict_of_items (rows_filename_size (mkConn (Some t)))) k
    = size <$> t !! k.
Proof.
  unfold rows_filename_size; simpl.
  set (rows := (fun kr : string * Row => (kr.1, size kr.2)) <$> map_to_list t).
  assert (NoDup rows.*1) as Hnd.
  { unfold rows. rewrite <- list_fmap_compose.
    apply (NoDup_fst_map_to_list t). }
  destruct (t !! k) as [r|] eqn:Hk; simpl.
  - apply (dict_of_items_get _ _ _ Hnd). unfold rows.
    apply list_elem_of_fmap. exists (k, r). split; [done|].
    by apply elem_of_map_to_list.
  - destruct (dict_get (dict_of_items rows) k) as [s|] eqn:Hd; [|done].
    apply (dict_of_items_get _ _ _ Hnd) in Hd. unfold rows in Hd.
    apply list_elem_of_fmap in Hd as ([k' r] & [= -> ->] & Hin).
    apply elem_of_map_to_list in Hin. simpl in Hin. congruence.
Qed.

(** ** The two loops of [update_local_database] *)

#[local] Arguments strftime : simpl never.

Lemma upsert_entry_spec (clock : nat -> datetime) (existing : list (string * Z))
    (t : gmap string Row) (k0 : string) (s0 : Z) (w : World) :
  dict_get existing k0 = size <$> t !! k0 ->
  exists t1 evs,
    upsert_entry clock existing (mkConn (Some t)) (k0, s0) w
      = (Ok (mkConn (Some t1)),
         mkWorld (db_exists w) (db_file w) (S (ticks w)) (trace w ++ evs)) /\
    (forall k, k <> k0 -> t1 !! k = t !! k) /\
    (dict_get existing k0 = Some s0 -> t1 = t /\ evs = []) /\
    (dict_get existing k0 <> Some s0 ->
       exists ts, t1 !! k0 = Some (mkRow s0 ts)).
Proof.
  intros Hagree.
  unfold upsert_entry, bind, now_strftime, datetime_now, cursor_execute, print,
    emit, ret; simpl.
  destruct (dict_get existing k0) as [old|] eqn:Hex.
  - destruct (Z.eqb_spec old s0) as [->|Hne]; simpl.
    + exists t, []. rewrite app_nil_r. repeat split; try done.
    + eexists _, [_; _]. rewrite <- app_assoc. split; [reflexivity|].
      split; [|split].
      * intros k Hk. by rewrite lookup_alter_ne.
      * intros [= ->]. done.
      * intros _. rewrite lookup_alter_eq.
        destruct (t !! k0); [by eexists|done].
  - symmetry in Hagree. apply fmap_None in Hagree. rewrite Hagree. simpl.
    eexists _, [_; _]. rewrite <- app_assoc. split; [reflexivity|].
    split; [|split].
    + intros k Hk. by rewrite lookup_insert_ne.
    + done.
    + intros _. rewrite lookup_insert_eq. by eexists.
Qed.

Lemma upsert_loop_spec (clock : nat -> datetime) (existing : list (string * Z))
    (items : list (string * Z)) :
  forall (t : gmap string Row) (w : World),
  NoDup items.*1 ->
  (forall k, k ∈ items.*1 -> dict_get existing k = size <$> t !! k) ->
  exists t' evs,
    for_each items (mkConn (Some t)) (upsert_entry clock existing) w
      = (Ok (mkConn (Some t')),
         mkWorld (db_exists w) (db_file w) (ticks w + length items)%nat
           (trace w ++ evs)) /\
    (forall k, k ∉ items.*1 -> t' !! k = t !! k) /\
    (forall k s, (k, s) ∈ items -> dict_get existing k = Some s ->
       t' !! k = t !! k) /\
    (forall k s, (k, s) ∈ items -> dict_get existing k <> Some s ->
       exists ts, t' !! k = Some (mkRow s ts)) /\
    ((forall k s, (k, s) ∈ items -> dict_get existing k = Some s) -> evs = []).
Proof.
  induction items as [|[k0 s0] items IH]; intros t w Hnd Hagree.
  - exists t, []. simpl. unfold ret. rewrite app_nil_r, Nat.add_0_r.
    split; [by destruct w|].
    repeat split; try done; intros k s H; by apply elem_of_nil in H.
  - rewrite fmap_cons in Hnd. apply NoDup_cons in Hnd as [Hk0 Hnd].
    destruct (upsert_entry_spec clock existing t k0 s0 w) as
      (t1 & evs1 & Hrun1 & Hother1 & Hsame1 & Hnew1).
    { apply Hagree. simpl. apply list_elem_of_here. }
    destruct (IH t1 (mkWorld (db_exists w) (db_file w) (S (ticks w))
                       (trace w ++ evs1)) Hnd)
      as (t' & evs & Hrun & Hother & Hsame & Hnew & Hquiet).
    { intros k Hk. rewrite Hother1 by (intros ->; done).
      apply Hagree. simpl. by apply list_elem_of_further. }
    exists t', (evs1 ++ evs).
    split; [|split; [|split; [|split]]].
    + simpl. unfold bind at 1. rewrite Hrun1, Hrun. simpl.
      by rewrite app_assoc, Nat.add_succ_r.
    + intros k Hk. rewrite fmap_cons in Hk.
      apply not_elem_of_cons in Hk as [Hk Hk'].
      by rewrite (Hother k Hk'), (Hother1 k Hk).
    + intros k s Hin Hex. apply elem_of_cons in Hin as [[= -> ->]|Hin].
      * rewrite Hother by done. by destruct (Hsame1 Hex) as [-> _].
      * rewrite (Hsame k s Hin Hex). apply Hother1. intros ->.
        apply Hk0. by apply (list_elem_of_fmap_2 fst) in Hin.
    + intros k s Hin Hex. apply elem_of_cons in Hin as [[= -> ->]|Hin].
      * rewrite Hother by done. by apply Hnew1.
      * by apply Hnew.
    + intros Hall.
      destruct (Hsame1 (Hall k0 s0 ltac:(apply list_elem_of_here))) as [_ ->].
      rewrite Hquiet; [done|]. intros k s Hin. apply Hall.
      by apply list_elem_of_further.
Qed.

Lemma delete_entry_spec (current : list (string * Z)) (t : gmap string Row)
    (k0 : string) (w : World) :
  exists t1 evs,
    delete_entry current (mkConn (Some t)) k0 w
      = (Ok (mkConn (Some t1)),
         mkWorld (db_exists w) (db_file w) (ticks w) (trace w ++ evs)) /\
    t1 = match dict_get current k0 with Some _ => t | None => delete k0 t end /\
    (is_Some (dict_get current k0) -> evs = []).
Proof.
  unfold delete_entry, dict_mem, bind, cursor_execute, print, emit, ret; simpl.
  destruct (dict_get current k0) as [s|]; simpl.
  - exists t, []. rewrite app_nil_r. split; [by destruct w|done].
  - eexists _, [_; _]. rewrite <- app_assoc. split; [reflexivity|].
    split; [done|]. intros H; by destruct H.
Qed.

Lemma delete_loop_spec (current : list (string * Z)) (ks : list string) :
  forall (t : gmap string Row) (w : World),
  exists t' evs,
    for_each ks (mkConn (Some t)) (delete_entry current) w
      = (Ok (mkConn (Some t')),
         mkWorld (db_exists w) (db_file w) (ticks w) (trace w ++ evs)) /\
    (forall k, t' !! k =
       if decide (k ∈ ks /\ dict_get current k = None) then None else t !! k) /\
    ((forall k, k ∈ ks -> is_Some (dict_get current k)) -> evs = []).
Proof.
  induction ks as [|k0 ks IH]; intros t w.
  - exists t, []. split; [|split; [|done]].
    + simpl. unfold ret. rewrite app_nil_r. by destruct w.
    + intros k. rewrite decide_False; [done|].
      intros [H _]. by apply elem_of_nil in H.
  - destruct (delete_entry_spec current t k0 w) as (t1 & evs1 & Hrun1 & Ht1 & Hq1).
    destruct (IH t1 (mkWorld (db_exists w) (db_file w) (ticks w)
                       (trace w ++ evs1)))
      as (t' & evs & Hrun & Hlook & Hquiet).
    exists t', (evs1 ++ evs). split; [|split].
    + simpl. unfold bind at 1. rewrite Hrun1, Hrun. simpl. by rewrite app_assoc.
    + intros k. rewrite Hlook, Ht1.
      pose proof (list_elem_of_here k0 ks) as Hhere.
      destruct (decide (k = k0)) as [->|Hne].
      * destruct (dict_get current k0) eqn:Hc.
        -- rewrite !decide_False by (intros [_ ?]; done). done.
        -- rewrite lookup_delete_eq.
           destruct (decide (k0 ∈ k0 :: ks /\ @None Z = None)) as [_|Hn];
             [by destruct (decide _)|].
           exfalso. by apply Hn.
      * assert (match dict_get current k0 with
                | Some _ => t | None => delete k0 t end !! k = t !! k) as ->.
        { destruct (dict_get current k0); [done|]. by rewrite lookup_delete_ne. }
        destruct (decide (k ∈ ks /\ dict_get current k = None)) as [[H1 H2]|Hn1],
          (decide (k ∈ k0 :: ks /\ dict_get current k = None)) as [[H3 H4]|Hn2];
          try done.
        -- exfalso. apply Hn2. split; [by apply list_elem_of_further|done].
        -- exfalso. apply Hn1. split; [|done].
           apply elem_of_cons in H3 as [?|?]; done.
    + intros Hall. rewrite (Hq1 (Hall k0 ltac:(apply list_elem_of_here))).
      rewrite Hquiet; [done|]. intros k Hk. apply Hall.
      by apply list_elem_of_further.
Qed.

(** ** One pass of [update_local_database] *)

Lemma ensure_database_exists_run (DATABASE_FILE : string) (w : World) :
  ensure_database_exists DATABASE_FILE w
    = (Ok tt, mkWorld true (Some (records (db_file w))) (ticks w)
                (trace w ++ creation_notice DATABASE_FILE w
                   ++ [EvSql CreateTableIfNotExists; EvCommit])).
Proof.
  unfold ensure_database_exists, os_path_exists_database, creation_notice,
    bind, sqlite3_connect, cursor_execute, conn_commit, conn_close, print,
    emit, ret, records.
  destruct w as [[] [t|] n tr]; simpl; rewrite <- ?app_assoc; reflexivity.
Qed.

(** What a pass does when the listing arrives: the table it commits has
    the sizes of the listing, keeps the rows whose size already agreed,
    and nothing is executed when every size agreed. *)
Lemma update_local_database_listing (DATABASE_FILE : string)
    (clock : nat -> datetime) (resp : ListResponse) (w : World) :
  let current :=
    dict_of_items ((fun file => (Key file, Size file))
                     <$> default [] (Contents resp)) in
  let t := records (db_file w) in
  exists t' evs,
    update_local_database DATABASE_FILE clock (Ok resp) w
      = (Ok tt,
         mkWorld true (Some t') (ticks w + length current)%nat
           (trace w ++ creation_notice DATABASE_FILE w
              ++ [EvSql CreateTableIfNotExists; EvCommit; EvSql SelectAll]
              ++ evs ++ [EvCommit])) /\
    (forall k, size <$> t' !! k = dict_get current k) /\
    (forall k r, t !! k = Some r -> dict_get current k = Some (size r) ->
       t' !! k = Some r) /\
    ((forall k, size <$> t !! k = dict_get current k) ->
       evs = [] /\ t' = t).
Proof.
  intros current t.
  set (existing := dict_of_items (rows_filename_size (mkConn (Some t)))).
  assert (forall k, dict_get existing k = size <$> t !! k) as Hex
    by apply rows_dict_get.
  pose proof (dict_of_items_NoDup
    ((fun file => (Key file, Size file)) <$> default [] (Contents resp))) as Hnd.
  fold current in Hnd.
  set (w0 := mkWorld true (Some t) (ticks w)
               ((trace w ++ creation_notice DATABASE_FILE w
                   ++ [EvSql CreateTableIfNotExists; EvCommit])
                  ++ [EvSql SelectAll])).
  destruct (upsert_loop_spec clock existing current t w0 Hnd)
    as (t1 & evs1 & Hrun1 & Hother1 & Hsame1 & Hnew1 & Hquiet1);
    [by intros; apply Hex|].
  destruct (delete_loop_spec current existing.*1 t1
              (mkWorld (db_exists w0) (db_file w0)
                 (ticks w0 + length current)%nat (trace w0 ++ evs1)))
    as (t2 & evs2 & Hrun2 & Hlook2 & Hquiet2).
  exists t2, (evs1 ++ evs2).
  split; [|split; [|split]].
  - unfold update_local_database. unfold bind at 1.
    rewrite ensure_database_exists_run.
    unfold bind at 1, sqlite3_connect at 1.
    unfold bind at 1, fetch_listing, try_except, list_objects_v2, bind at 1, ret at 1.
    unfold bind at 1, fetchall_filename_size, bind at 1, cursor_execute at 1.
    cbn [run_stmt view db_exists db_file ticks trace ret].
    fold t. fold existing. fold current.
    unfold bind at 1. fold w0.
    rewrite Hrun1. unfold bind at 1. rewrite Hrun2.
    unfold bind, conn_commit, conn_close, ret, w0; simpl.
    by rewrite <- !app_assoc.
  - intros k. rewrite Hlook2.
    destruct (dict_get current k) as [s|] eqn:Hc.
    + rewrite decide_False by (intros [_ ?]; done).
      apply (dict_get_elem_of _ _ _ Hnd) in Hc.
      destruct (decide (dict_get existing k = Some s)) as [He|He].
      * rewrite (Hsame1 k s Hc He). by rewrite <- Hex.
      * destruct (Hnew1 k s Hc He) as [ts ->]. done.
    + pose proof Hc as Hc'. apply dict_get_None in Hc'.
      rewrite (Hother1 k Hc').
      case_decide as Hd; [done|].
      destruct (t !! k) as [r|] eqn:Ht; [|done].
      exfalso. apply Hd. split; [|done].
      apply dict_get_is_Some. rewrite Hex, Ht. by eexists.
  - intros k r Ht Hc. rewrite Hlook2.
    rewrite decide_False by (intros [_ ?]; congruence).
    rewrite <- Ht. apply (Hsame1 k (size r)).
    + by apply (dict_get_elem_of _ _ _ Hnd).
    + by rewrite Hex, Ht.
  - intros Hall.
    assert (evs1 = []) as ->.
    { apply Hquiet1. intros k s Hin.
      apply (dict_get_elem_of _ _ _ Hnd) in Hin. by rewrite Hex, Hall. }
    assert (evs2 = []) as ->.
    { apply Hquiet2. intros k Hk. apply dict_get_is_Some in Hk.
      by rewrite <- Hall, <- Hex. }
    split; [done|]. apply map_eq. intros k. rewrite Hlook2.
    destruct (dict_get current k) as [s|] eqn:Hc.
    + rewrite decide_False by (intros [_ ?]; done).
      apply (Hsame1 k s); [by apply (dict_get_elem_of _ _ _ Hnd)|].
      by rewrite Hex, Hall.
    + pose proof Hc as Hc'. apply dict_get_None in Hc'.
      rewrite (Hother1 k Hc').
      case_decide as Hd; [|done].
      specialize (Hall k). rewrite Hc in Hall.
      apply fmap_None in Hall. by rewrite Hall.
Qed.

Lemma update_local_database_denied (DATABASE_FILE : string)
    (clock : nat -> datetime) (w : World) :
  update_local_database DATABASE_FILE clock
      (Raise (ClientError "AllAccessDisabled")) w
    = (Ok tt,
       mkWorld true (Some (records (db_file w))) (ticks w)
         (trace w ++ creation_notice DATABASE_FILE w ++
            [EvSql CreateTableIfNotExists; EvCommit;
             EvPrint "Access to the S3 bucket is disabled. Please check permissions."])).
Proof.
  unfold update_local_database. unfold bind at 1.
  rewrite ensure_database_exists_run.
  unfold bind, sqlite3_connect, fetch_listing, try_except, list_objects_v2,
    print, emit, ret; simpl.
  by rewrite <- !app_assoc.
Qed.

Lemma update_local_database_failure (DATABASE_FILE : string)
    (clock : nat -> datetime) (e : exn) (w : World) :
  e <> ClientError "AllAccessDisabled" ->
  update_local_database DATABASE_FILE clock (Raise e) w
    = (Raise e,
       mkWorld true (Some (records (db_file w))) (ticks w)
         (trace w ++ creation_notice DATABASE_FILE w
            ++ [EvSql CreateTableIfNotExists; EvCommit])).
Proof.
  intros He. unfold update_local_database. unfold bind at 1.
  rewrite ensure_database_exists_run.
  unfold bind, sqlite3_connect, fetch_listing, try_except, list_objects_v2,
    print, emit, ret, raise; simpl.
  destruct e as [msg|code|what|msg|msg]; try reflexivity.
  destruct (String.eqb_spec code "AllAccessDisabled") as [->|Hne]; [done|].
  reflexivity.
Qed.

Lemma elem_of_list_all (t : gmap string Row) (k : string) (s : Z) :
  (k, s) ∈ list_all (Some t) <-> size <$> t !! k = Some s.
Proof.
  unfold list_all, rows_filename_size; simpl.
  rewrite list_elem_of_fmap. split.
  - intros ([k' r] & [= -> ->] & Hin). apply elem_of_map_to_list in Hin.
    simpl in *. by rewrite Hin.
  - intros H. apply fmap_Some in H as (r & Hr & ->).
    exists (k, r). split; [done|]. by apply elem_of_map_to_list.
Qed.

Lemma list_all_NoDup (db : option (gmap string Row)) : NoDup (list_all db).
Proof.
  destruct db as [t|]; [|apply NoDup_nil_2].
  unfold list_all, rows_filename_size; simpl.
  apply (NoDup_fmap_1 fst). rewrite <- list_fmap_compose.
  apply (NoDup_fst_map_to_list t).
Qed.

(** ** Reconciliation *)

(** C1 (convergence): whatever the cache held before, the file or the
    table missing included, a pass that receives the listing L returns
    normally and leaves as the (identity, size) pairs of the cache exactly
    the entries of the dictionary built from L, each once; an identity
    names one remote object, and when L lists no identity twice these are
    exactly the pairs of L. *)
Theorem update_local_database_converges (DATABASE_FILE : string)
    (clock : nat -> datetime) (resp : ListResponse) (w : World) :
  let pass := update_local_database DATABASE_FILE clock (Ok resp) in
  eval pass w = Ok tt /\
  list_all (db_file (exec pass w)) ≡ₚ dict_of_items (listing resp) /\
  (NoDup (listing resp).*1 ->
   list_all (db_file (exec pass w)) ≡ₚ listing resp).
Proof.
  intros pass.
  destruct (update_local_database_listing DATABASE_FILE clock resp w)
    as (t' & evs & Hrun & Hsize & _).
  unfold pass, eval, exec. rewrite Hrun. simpl. split; [done|].
  pose proof (dict_of_items_NoDup (listing resp)) as Hd.
  split; [|intros Hnd]; apply NoDup_Permutation;
    try apply list_all_NoDup; try by apply (NoDup_fmap_1 fst).
  - intros [k s]. rewrite elem_of_list_all, Hsize.
    by apply dict_get_elem_of.
  - intros [k s]. rewrite elem_of_list_all, Hsize.
    by apply dict_of_items_get.
Qed.

(** C7 (frame): a record whose identity is in the listing with the size
    the record already has is the same record after the pass: same size,
    same [updated_at]. *)
Theorem update_local_database_keeps_matching (DATABASE_FILE : string)
    (clock : nat -> datetime) (resp : ListResponse) (w : World)
    (k : string) (r : Row) :
  NoDup (listing resp).*1 ->
  records (db_file w) !! k = Some r ->
  (k, size r) ∈ listing resp ->
  records (db_file (exec (update_local_database DATABASE_FILE clock (Ok resp))
                      w)) !! k
    = Some r.
Proof.
  intros Hnd Hr Hin.
  destruct (update_local_database_listing DATABASE_FILE clock resp w)
    as (t' & evs & Hrun & _ & Hkeep & _).
  unfold exec. rewrite Hrun. simpl. apply Hkeep; [done|].
  by apply dict_of_items_get.
Qed.

(** C6 (idempotence): when a pass returned normally, the next pass with
    the same outcome of the listing request executes no INSERT, UPDATE,
    DELETE or INSERT OR REPLACE and commits the table it found. *)
Theorem update_local_database_idempotent (DATABASE_FILE : string)
    (clock : nat -> datetime) (outcome : result ListResponse) (w : World) :
  let pass := update_local_database DATABASE_FILE clock outcome in
  eval pass w = Ok tt ->
  let w1 := exec pass w in
  let w2 := exec pass w1 in
  eval pass w1 = Ok tt /\
  db_file w2 = db_file w1 /\
  exists evs, trace w2 = (trace w1 ++ evs) /\ mutations evs = [].
Proof.
  cbv zeta. destruct outcome as [resp|e].
  - intros _.
    set (w1 := exec (update_local_database DATABASE_FILE clock (Ok resp)) w).
    destruct (update_local_database_listing DATABASE_FILE clock resp w)
      as (t1 & evs1 & Hrun1 & Hsize1 & _).
    assert (db_file w1 = Some t1 /\ db_exists w1 = true) as [Hdb1 Hex1]
      by (unfold w1, exec; by rewrite Hrun1).
    destruct (update_local_database_listing DATABASE_FILE clock resp w1)
      as (t2 & evs2 & Hrun2 & _ & _ & Hquiet).
    rewrite Hdb1 in Hquiet. destruct (Hquiet Hsize1) as [-> ->].
    unfold eval, exec. rewrite Hrun2. simpl.
    unfold creation_notice. rewrite Hex1.
    split; [done|]. split; [done|]. by eexists.
  - assert (e = ClientError "AllAccessDisabled" \/
            e <> ClientError "AllAccessDisabled") as [->|Hne].
    { destruct e as [?|code|?|?|?]; try (by right).
      destruct (String.eqb_spec code "AllAccessDisabled") as [->|?];
        [by left|right; congruence]. }
    + intros _. unfold eval, exec.
      rewrite !update_local_database_denied. simpl.
      split; [done|]. split; [done|]. by eexists.
    + unfold eval. by rewrite update_local_database_failure.
Qed.

(** C3 (the listing fails): on the "all access disabled" error the pass
    prints its warning and returns normally, and the records of the cache
    are the ones it found (the table is created when it was missing,
    nothing else is executed); any other exception of the listing request
    is raised to the caller unchanged, the records again untouched. *)
Theorem update_local_database_listing_errors (DATABASE_FILE : string)
    (clock : nat -> datetime) (w : World) :
  (let denied := update_local_database DATABASE_FILE clock
                   (Raise (ClientError "AllAccessDisabled")) in
   eval denied w = Ok tt /\
   records (db_file (exec denied w)) = records (db_file w) /\
   trace (exec denied w)
     = (trace w ++ creation_notice DATABASE_FILE w ++
          [EvSql CreateTableIfNotExists; EvCommit;
           EvPrint "Access to the S3 bucket is disabled. Please check permissions."])) /\
  (forall e, e <> ClientError "AllAccessDisabled" ->
     let failed := update_local_database DATABASE_FILE clock (Raise e) in
     eval failed w = Raise e /\
     records (db_file (exec failed w)) = records (db_file w)).
Proof.
  split.
  - cbv zeta. unfold eval, exec. by rewrite update_local_database_denied.
  - intros e He. cbv zeta. unfold eval, exec.
    by rewrite update_local_database_failure.
Qed.

(** ** The upload decision *)

Lemma build_s3_filename_run (rule : string) (clock : nat -> datetime)
    (mac filename : string) (w : World) :
  build_s3_filename rule clock mac filename w
    = (eval (build_s3_filename rule clock mac filename) w,
       mkWorld (db_exists w) (db_file w) (S (ticks w)) (trace w)).
Proof.
  rewrite <- (build_s3_filename_exec rule clock mac filename w).
  unfold eval, exec.
  by destruct (build_s3_filename rule clock mac filename w).
Qed.

(** The key depends on the world through the clock reading only. *)
Lemma build_s3_filename_eval_ticks (rule : string) (clock : nat -> datetime)
    (mac filename : string) (w w' : World) :
  ticks w = ticks w' ->
  eval (build_s3_filename rule clock mac filename) w
    = eval (build_s3_filename rule clock mac filename) w'.
Proof.
  intros H. by rewrite !build_s3_filename_eval, !format_datetime_eval, H.
Qed.

(** The key built on a connection that was just opened. *)
Lemma build_s3_filename_connected (rule : string) (clock : nat -> datetime)
    (mac filename : string) (w : World) :
  build_s3_filename rule clock mac filename
      (mkWorld true (db_file w) (ticks w) (trace w))
    = (eval (build_s3_filename rule clock mac filename) w,
       mkWorld true (db_file w) (S (ticks w)) (trace w)).
Proof.
  rewrite build_s3_filename_run. simpl. f_equal.
  by apply build_s3_filename_eval_ticks.
Qed.

Lemma needFile_cases (rule : string) (clock : nat -> datetime)
    (mac filename : string) (sz : Z) (w : World) :
  (exists e,
     needFile rule clock mac filename sz w
       = (Raise e, mkWorld true (db_file w) (S (ticks w)) (trace w))) \/
  (exists k1,
     eval (build_s3_filename rule clock mac filename) w = Ok k1 /\
     needFile rule clock mac filename sz w
       = (Ok (match row_exact (mkConn (db_file w)) k1 sz with
              | None => true
              | Some _ => false
              end),
          mkWorld true (db_file w) (S (ticks w))
            (trace w ++ [EvSql (SelectExact k1 sz)]))).
Proof.
  pose proof (build_s3_filename_connected rule clock mac filename w) as Hb.
  unfold needFile, bind, sqlite3_connect, fetchone_exact, cursor_execute,
    conn_close, ret, row_exact; simpl.
  rewrite Hb.
  destruct (eval (build_s3_filename rule clock mac filename) w) as [k1|e];
    [|left; by exists e].
  destruct (db_file w) as [t|] eqn:Hdb; simpl.
  - right. by exists k1.
  - left. by eexists.
Qed.

(** C2 (decision): on an existing cache table, for the identity that
    [needFile] builds from its arguments, the answer is true exactly when
    no record has that identity with exactly that size; the call changes
    nothing in the cache and executes no mutating statement; and once
    INSERT OR REPLACE of that identity and size is committed, the answer
    for them is false. *)
Theorem needFile_true_iff_no_exact_record (rule : string)
    (clock : nat -> datetime) (mac filename : string) (sz : Z)
    (w : World) (t : gmap string Row) (id : string) :
  db_file w = Some t ->
  eval (build_s3_filename rule clock mac filename) w = Ok id ->
  let check := needFile rule clock mac filename sz in
  (exists need, eval check w = Ok need /\
     (need = true <-> ~ exists r, t !! id = Some r /\ size r = sz)) /\
  db_file (exec check w) = db_file w /\
  (exists evs, trace (exec check w) = (trace w ++ evs) /\
     mutations evs = []) /\
  (forall ts w',
     run_stmt (InsertOrReplace id sz ts) (db_file w) = Ok (db_file w') ->
     eval (build_s3_filename rule clock mac filename) w' = Ok id ->
     eval (needFile rule clock mac filename sz) w' = Ok false).
Proof.
  intros Hdb Hid check.
  assert (forall w0 t0, db_file w0 = Some t0 ->
            eval (build_s3_filename rule clock mac filename) w0 = Ok id ->
            needFile rule clock mac filename sz w0
              = (Ok (match row_exact (mkConn (Some t0)) id sz with
                     | None => true | Some _ => false end),
                 mkWorld true (db_file w0) (S (ticks w0))
                   (trace w0 ++ [EvSql (SelectExact id sz)]))) as Hrun.
  { intros w0 t0 Hdb0 Hid0.
    destruct (needFile_cases rule clock mac filename sz w0)
      as [[e He]|(k1 & Hk1 & Hr)].
    - exfalso. revert He.
      pose proof (build_s3_filename_connected rule clock mac filename w0) as Hb.
      unfold needFile, bind, sqlite3_connect, fetchone_exact, cursor_execute,
        conn_close, ret; simpl.
      by rewrite Hb, Hid0, Hdb0.
    - rewrite Hk1 in Hid0. injection Hid0 as ->. by rewrite Hr, Hdb0. }
  unfold check, eval, exec. rewrite (Hrun w t Hdb Hid). simpl.
  split; [|split; [done|split; [by eexists|]]].
  - eexists. split; [done|]. unfold row_exact; simpl.
    destruct (t !! id) as [r|] eqn:Hr.
    + destruct (Z.eqb_spec (size r) sz) as [Heq|Hne].
      * split; [done|]. intros Hn. exfalso. apply Hn. by exists r.
      * split; [|done]. intros _ (r' & [= <-] & Heq). done.
    + split; [|done]. intros _ (r' & [=] & _).
  - intros ts w' Hins Hid'. rewrite Hdb in Hins. simpl in Hins.
    injection Hins as Hdb'. symmetry in Hdb'.
    rewrite (Hrun w' _ Hdb' Hid'). simpl.
    unfold row_exact; simpl. rewrite lookup_insert_eq. simpl.
    by rewrite Z.eqb_refl.
Qed.

(** ** The walk over the data directory *)

(** One regular file, step by step. *)
Lemma upload_entry_run (rule : string) (clock : nat -> datetime)
    (upload_fault : World -> string -> option exn)
    (mac : string) (conn : Connection) (filename : string) (sz : Z) (w : World) :
  let W n tr := mkWorld true (db_file w) n tr in
  let n := ticks w in
  upload_entry rule clock upload_fault mac conn (filename, RegularFile sz) w =
    match eval (build_s3_filename rule clock mac filename) w with
    | Raise e => (Raise e, W (S n) (trace w))
    | Ok k1 =>
        match db_file w with
        | None => (Raise no_such_table, W (S n) (trace w))
        | Some t =>
            let w1 := W (S n) (trace w ++ [EvSql (SelectExact k1 sz)]) in
            match row_exact (mkConn (Some t)) k1 sz with
            | Some _ => (Ok conn, w1)
            | None =>
                let w2 := W (S (S n)) (trace w ++ [EvSql (SelectExact k1 sz)]) in
                match eval (build_s3_filename rule clock mac filename) w1 with
                | Raise e => (Raise e, w2)
                | Ok k2 =>
                    match upload_fault w2 k2 with
                    | Some e => (Raise e, w2)
                    | None =>
                        let ts := strftime (clock (S (S n))) DATETIME_FORMAT in
                        match view conn with
                        | None =>
                            (Raise no_such_table,
                             W (S (S (S n)))
                               (trace w ++
                                  [EvSql (SelectExact k1 sz); EvUpload k2 sz;
                                   EvPrint ("Uploaded: " +:+ k2)]))
                        | Some tc =>
                            (Ok (mkConn (Some (<[k2 := mkRow sz ts]> tc))),
                             W (S (S (S n)))
                               (trace w ++
                                  [EvSql (SelectExact k1 sz); EvUpload k2 sz;
                                   EvPrint ("Uploaded: " +:+ k2);
                                   EvSql (InsertOrReplace k2 sz ts)]))
                        end
                    end
                end
            end
        end
    end.
Proof.
  intros W n. subst W n.
  pose proof (build_s3_filename_connected rule clock mac filename w) as Hb.
  unfold upload_entry, needFile, bind, sqlite3_connect, fetchone_exact,
    cursor_execute, conn_close, ret, row_exact; simpl.
  rewrite Hb.
  destruct (eval (build_s3_filename rule clock mac filename) w) as [k1|e];
    [|done].
  destruct (db_file w) as [t|] eqn:Hdb; simpl; [|done].
  destruct (match t !! k1 with
            | Some r => if size r =? sz then Some (k1, size r) else None
            | None => None
            end) as [hit|]; [done|].
  rewrite build_s3_filename_run. simpl.
  destruct (eval (build_s3_filename rule clock mac filename) _) as [k2|e];
    [|done].
  unfold s3_upload_file, emit, print, now_strftime, datetime_now, bind, ret;
    simpl.
  destruct (upload_fault _ k2) as [e|]; [done|]. simpl.
  destruct (view conn) as [tc|]; simpl; [|by rewrite <- !app_assoc].
  by rewrite <- !app_assoc.
Qed.

Lemma upserts_follow_uploads_app (a b : list Event) :
  upserts_follow_uploads a -> upserts_follow_uploads b ->
  upserts_follow_uploads (a ++ b).
Proof.
  intros Ha Hb i k sz ts Hi.
  apply lookup_app_Some in Hi as [Hi|[Hlen Hi]].
  - destruct (Ha _ _ _ _ Hi) as (j & Hj & Hjj).
    exists j. split; [done|]. by apply lookup_app_l_Some.
  - destruct (Hb _ _ _ _ Hi) as (j & Hj & Hjj).
    exists (length a + j)%nat. split; [lia|].
    rewrite lookup_app_r by lia.
    by replace (length a + j - length a)%nat with j by lia.
Qed.

Lemma upserts_follow_uploads_none (evs : list Event) :
  (forall k sz ts, EvSql (InsertOrReplace k sz ts) ∉ evs) ->
  upserts_follow_uploads evs.
Proof.
  intros Hno i k sz ts Hi. exfalso.
  apply (Hno k sz ts). by apply list_elem_of_lookup_2 in Hi.
Qed.

Lemma upserts_follow_uploads_entry (k1 k2 : string) (sz : Z) (ts : string) :
  upserts_follow_uploads
    [EvSql (SelectExact k1 sz); EvUpload k2 sz; EvPrint ("Uploaded: " +:+ k2);
     EvSql (InsertOrReplace k2 sz ts)].
Proof.
  intros i k s t Hi.
  do 4 (destruct i as [|i]; simpl in Hi; try discriminate).
  injection Hi as -> -> ->. exists 1%nat. split; [lia|done].
Qed.

(** What the events of a walk have to satisfy before the final commit. *)
Lemma for_each_frame {X A : Type} (P : list Event -> Prop)
    (body : A -> X -> M A) :
  P [] -> (forall a b, P a -> P b -> P (a ++ b)) ->
  (forall a x w, exists evs,
     trace (snd (body a x w)) = trace w ++ evs /\
     db_file (snd (body a x w)) = db_file w /\ P evs) ->
  forall l a w, exists evs,
    trace (snd (for_each l a body w)) = trace w ++ evs /\
    db_file (snd (for_each l a body w)) = db_file w /\ P evs.
Proof.
  intros Hnil Happ Hbody. induction l as [|x l IH]; intros a w; simpl.
  - exists []. by rewrite app_nil_r.
  - destruct (Hbody a x w) as (evs1 & Htr1 & Hdb1 & HP1).
    unfold bind. destruct (body a x w) as [[a'|e] w1]; simpl in *.
    + destruct (IH a' w1) as (evs & Htr & Hdb & HP).
      exists (evs1 ++ evs). rewrite Htr, Htr1, Hdb, Hdb1, app_assoc. auto.
    + by exists evs1.
Qed.

Lemma walk_events_nil : walk_events [].
Proof.
  split; [apply upserts_follow_uploads_none|];
    intros; apply not_elem_of_nil.
Qed.

Lemma walk_events_app (a b : list Event) :
  walk_events a -> walk_events b -> walk_events (a ++ b).
Proof.
  intros [Ha Ha'] [Hb Hb']. split; [by apply upserts_follow_uploads_app|].
  rewrite elem_of_app. tauto.
Qed.

Ltac not_in_list :=
  let H := fresh in
  intros H; repeat (apply elem_of_cons in H as [H|H]; [discriminate H|]);
  by apply elem_of_nil in H.

Lemma upload_entry_frame (rule : string) (clock : nat -> datetime)
    (upload_fault : World -> string -> option exn) (mac : string)
    (conn : Connection) (entry : string * Node) (w : World) :
  exists evs,
    trace (snd (upload_entry rule clock upload_fault mac conn entry w))
      = trace w ++ evs /\
    db_file (snd (upload_entry rule clock upload_fault mac conn entry w))
      = db_file w /\
    walk_events evs.
Proof.
  destruct entry as [filename [sz|files|]];
    [|exists []; rewrite app_nil_r; by auto using walk_events_nil..].
  rewrite upload_entry_run. cbv zeta.
  repeat match goal with
         | |- context [match ?x with _ => _ end] => destruct x
         end; simpl;
    first [ exists []; rewrite app_nil_r;
            by auto using walk_events_nil
          | eexists; split; [reflexivity|]; split; [reflexivity|] ].
  all: split;
    [first [apply upserts_follow_uploads_entry
           |apply upserts_follow_uploads_none; intros; not_in_list]
    |not_in_list].
Qed.

Lemma upload_folder_frame (rule : string) (clock : nat -> datetime)
    (upload_fault : World -> string -> option exn)
    (conn : Connection) (entry : string * Node) (w : World) :
  exists evs,
    trace (snd (upload_folder rule clock upload_fault conn entry w))
      = trace w ++ evs /\
    db_file (snd (upload_folder rule clock upload_fault conn entry w))
      = db_file w /\
    walk_events evs.
Proof.
  destruct entry as [mac [sz|files|]]; unfold upload_folder; simpl;
    [exists []; rewrite app_nil_r; by auto using walk_events_nil| |
     exists []; rewrite app_nil_r; by auto using walk_events_nil].
  apply for_each_frame;
    auto using walk_events_nil, walk_events_app, upload_entry_frame.
Qed.

(** C8 (upload path): in a walk of the data directory every INSERT OR
    REPLACE of a cache record comes after the successful transfer of that
    identity and size; and when the walk ends in an exception, an upload
    failure included, the committed cache is the one the walk started
    from and nothing was committed on the way. *)
Theorem upload_files_upserts_after_transfer_no_partial_commit
    (rule : string) (clock : nat -> datetime)
    (upload_fault : World -> string -> option exn)
    (data_directory : list (string * Node)) (w : World) :
  let walk := upload_files rule clock upload_fault data_directory in
  exists evs,
    trace (exec walk w) = trace w ++ evs /\
    upserts_follow_uploads evs /\
    (forall e, eval walk w = Raise e ->
       db_file (exec walk w) = db_file w /\ EvCommit ∉ evs).
Proof.
  intros walk.
  assert (walk w =
            match for_each data_directory (mkConn (db_file w))
                    (upload_folder rule clock upload_fault)
                    (mkWorld true (db_file w) (ticks w) (trace w)) with
            | (Ok conn, w1) =>
                (Ok tt, mkWorld (db_exists w1) (view conn) (ticks w1)
                          (trace w1 ++ [EvCommit]))
            | (Raise e, w1) => (Raise e, w1)
            end) as Hrun.
  { unfold walk, upload_files, bind, sqlite3_connect, conn_commit, conn_close,
      ret.
    by destruct (for_each data_directory _ _ _) as [[conn|e] w1]. }
  unfold eval, exec. rewrite Hrun. clear Hrun.
  destruct (for_each_frame walk_events (upload_folder rule clock upload_fault)
              walk_events_nil walk_events_app
              (upload_folder_frame rule clock upload_fault)
              data_directory (mkConn (db_file w))
              (mkWorld true (db_file w) (ticks w) (trace w)))
    as (evs & Htr & Hdb & [Hup Hnc]).
  destruct (for_each data_directory _ _ _) as [[conn|e] w1]; simpl in *.
  - exists (evs ++ [EvCommit]). rewrite Htr, app_assoc.
    split; [done|]. split; [|done].
    apply upserts_follow_uploads_app; [done|].
    apply upserts_follow_uploads_none. intros; not_in_list.
  - exists evs. split; [done|]. split; [done|]. by intros e' [= <-].
Qed.

Lemma format_datetime_eval_ticks (rule : string) (clock : nat -> datetime)
    (w w' : World) :
  ticks w = ticks w' ->
  eval (format_datetime rule clock) w = eval (format_datetime rule clock) w'.
Proof. intros H. by rewrite !format_datetime_eval, H. Qed.

Lemma needFile_ticks (rule : string) (clock : nat -> datetime)
    (mac filename : string) (sz : Z) (w : World) :
  ticks (exec (needFile rule clock mac filename sz) w) = S (ticks w).
Proof.
  unfold exec.
  by destruct (needFile_cases rule clock mac filename sz w)
    as [[e ->]|(k & _ & ->)].
Qed.

(** C10 (decision and upload agree): when the bucket computed inside the
    decision and the bucket computed for the upload key are the same
    string, the identity queried by the decision is the key of everything
    the iteration does afterwards: the transfer, its progress line and the
    cache record; with granularity "never" the two buckets are always the
    same, empty, string. *)
Theorem upload_entry_same_identity :
  (forall rule clock upload_fault mac conn filename sz w time_bucket,
     eval (format_datetime rule clock) w = Ok time_bucket ->
     eval (format_datetime rule clock)
       (exec (needFile rule clock mac filename sz) w) = Ok time_bucket ->
     let id := s3_filename_of mac time_bucket filename in
     let iteration :=
       upload_entry rule clock upload_fault mac conn
         (filename, RegularFile sz) in
     exists evs,
       trace (exec iteration w) = trace w ++ evs /\
       Forall (concerns id sz) evs /\
       (is_Some (db_file w) -> head evs = Some (EvSql (SelectExact id sz))) /\
       (forall conn', eval iteration w = Ok conn' ->
          conn' = conn \/
          exists tc ts,
            view conn = Some tc /\
            view conn' = Some (<[id := mkRow sz ts]> tc) /\
            evs = [EvSql (SelectExact id sz); EvUpload id sz;
                   EvPrint ("Uploaded: " +:+ id);
                   EvSql (InsertOrReplace id sz ts)])) /\
  (forall clock mac filename sz w,
     eval (format_datetime "never" clock) w = Ok "" /\
     eval (format_datetime "never" clock)
       (exec (needFile "never" clock mac filename sz) w) = Ok "").
Proof.
  split; [|intros; by rewrite !format_datetime_eval].
  intros rule clock upload_fault mac conn filename sz w b H1 H2 id iteration.
  assert (eval (build_s3_filename rule clock mac filename) w = Ok id) as Hk1
    by (by rewrite build_s3_filename_eval, H1).
  assert (forall w1, ticks w1 = S (ticks w) ->
            eval (build_s3_filename rule clock mac filename) w1 = Ok id) as Hk2.
  { intros w1 Hw1. rewrite build_s3_filename_eval.
    rewrite (format_datetime_eval_ticks rule clock w1
               (exec (needFile rule clock mac filename sz) w)), H2; [done|].
    by rewrite needFile_ticks. }
  unfold iteration, eval, exec. rewrite upload_entry_run. cbv zeta.
  rewrite Hk1. rewrite Hk2 by done.
  destruct (db_file w) as [t|] eqn:Hdb.
  2: { exists []. rewrite app_nil_r. simpl.
       split; [done|]. split; [constructor|].
       split; [by intros [? [=]]|by intros ? [=]]. }
  destruct (row_exact (mkConn (Some t)) id sz) as [hit|].
  { exists [EvSql (SelectExact id sz)]. simpl.
    split; [done|]. split; [by repeat constructor|].
    split; [done|]. intros ? [= <-]. by left. }
  destruct (upload_fault _ id) as [e|].
  { exists [EvSql (SelectExact id sz)]. simpl.
    split; [done|]. split; [by repeat constructor|].
    split; [done|]. by intros ? [=]. }
  destruct (view conn) as [tc|] eqn:Hview.
  - eexists. simpl. split; [reflexivity|].
    split; [by repeat constructor|]. split; [done|].
    intros ? [= <-]. right. by eexists _, _.
  - eexists. simpl. split; [reflexivity|].
    split; [by repeat constructor|]. split; [done|]. by intros ? [=].
Qed.

(** ** The theorems at sample inputs *)

Lemma format_datetime_raises_iff_not_enumerated_witness :
  eval (format_datetime "daily" sample_clock) fresh_world
    = Raise (ValueError "Invalid DT_RULE value").
Proof.
  apply (proj1 (format_datetime_raises_iff_not_enumerated
                  "daily" sample_clock fresh_world "dev1" "a.txt")).
  intros H. apply elem_of_GRANULARITIES in H.
  repeat (destruct H as [H|H]; [discriminate H|]). discriminate H.
Defined.

Lemma build_s3_filename_across_time_witness :
  exists k1 k2,
    eval (build_s3_filename "weeks" sample_clock "dev1" "a.txt") fresh_world
      = Ok k1 /\
    eval (build_s3_filename "weeks" sample_clock "dev1" "a.txt")
      (mkWorld false None 1 []) = Ok k2 /\
    k1 <> k2.
Proof.
  apply (proj2 build_s3_filename_across_time).
  - apply elem_of_GRANULARITIES. tauto.
  - discriminate.
  - repeat split; by vm_compute.
  - repeat split; by vm_compute.
  - vm_compute. discriminate.
Defined.

Lemma update_local_database_converges_witness :
  list_all (db_file (exec (update_local_database "s3_files.db" sample_clock
                             (Ok sample_listing)) sample_world))
    ≡ₚ listing sample_listing.
Proof.
  apply (update_local_database_converges "s3_files.db" sample_clock
           sample_listing sample_world).
  repeat constructor; not_in_list.
Defined.

Lemma update_local_database_keeps_matching_witness :
  records (db_file (exec (update_local_database "s3_files.db" sample_clock
                            (Ok sample_listing)) sample_world))
    !! "dev1/bucket1/a.txt"
    = Some (mkRow 10 "2023-01-01T00:00:%").
Proof.
  apply (update_local_database_keeps_matching "s3_files.db" sample_clock sample_listing
           sample_world).
  - repeat constructor; not_in_list.
  - by vm_compute.
  - apply list_elem_of_here.
Defined.

Lemma update_local_database_idempotent_witness :
  let pass :=
    update_local_database "s3_files.db" sample_clock (Ok sample_listing) in
  db_file (exec pass (exec pass sample_world))
    = db_file (exec pass sample_world) /\
  exists evs,
    trace (exec pass (exec pass sample_world))
      = trace (exec pass sample_world) ++ evs /\
    mutations evs = [].
Proof.
  apply (update_local_database_idempotent "s3_files.db" sample_clock
           (Ok sample_listing) sample_world).
  by vm_compute.
Defined.

Lemma update_local_database_listing_errors_witness :
  eval (update_local_database "s3_files.db" sample_clock (Raise (ClientError "AccessDenied")))
    sample_world = Raise (ClientError "AccessDenied") /\
  records (db_file (exec (update_local_database "s3_files.db" sample_clock
                            (Raise (ClientError "AccessDenied"))) sample_world))
    = records (db_file sample_world).
Proof.
  apply (proj2 (update_local_database_listing_errors "s3_files.db" sample_clock sample_world)).
  discriminate.
Defined.

Lemma needFile_true_iff_no_exact_record_witness :
  exists need,
    eval (needFile "never" sample_clock "dev1" "gone.txt" 5) sample_world
      = Ok need /\
    (need = true <->
     ~ exists r,
         ({[ "dev1/bucket1/a.txt" := mkRow 10 "2023-01-01T00:00:%";
             "dev1/gone.txt" := mkRow 4 "2023-01-01T00:00:%" ]}
            : gmap string Row) !! "dev1/gone.txt" = Some r /\ size r = 5).
Proof.
  apply (needFile_true_iff_no_exact_record "never" sample_clock "dev1"
           "gone.txt" 5 sample_world _ "dev1/gone.txt");
    reflexivity.
Defined.

Lemma upload_files_upserts_after_transfer_no_partial_commit_witness :
  db_file (exec (upload_files "never" sample_clock sample_fault sample_directory)
             sample_world)
    = db_file sample_world.
Proof.
  destruct (upload_files_upserts_after_transfer_no_partial_commit
              "never" sample_clock sample_fault sample_directory sample_world)
    as (evs & _ & _ & Hraise).
  apply (Hraise (RemoteFailure "S3UploadFailedError")).
  by vm_compute.
Defined.

Lemma upload_entry_same_identity_witness :
  exists evs,
    trace (exec (upload_entry "days" sample_clock sample_fault "dev1"
                   (mkConn (db_file sample_world)) ("a.txt", RegularFile 10))
             (mkWorld true (db_file sample_world) 1 []))
      = [] ++ evs /\
    Forall (concerns "dev1/20231231/a.txt" 10) evs.
Proof.
  destruct (proj1 upload_entry_same_identity "days" sample_clock sample_fault
              "dev1" (mkConn (db_file sample_world)) "a.txt" 10
              (mkWorld true (db_file sample_world) 1 []) "20231231"
              eq_refl eq_refl)
    as (evs & Htr & Hall & _).
  by exists evs.
Defined.


(** * Further properties *)

(** ** [ensure_database_exists] *)

(** X1: [ensure_database_exists] returns normally, leaves the file and the
    table in place with the records it found (none when the table was
    missing), prints its notice only when the file was missing, and a
    second call changes nothing and prints nothing. *)
Theorem ensure_database_exists_keeps_records (DATABASE_FILE : string)
    (w : World) :
  let w1 := exec (ensure_database_exists DATABASE_FILE) w in
  let w2 := exec (ensure_database_exists DATABASE_FILE) w1 in
  eval (ensure_database_exists DATABASE_FILE) w = Ok tt /\
  db_exists w1 = true /\
  db_file w1 = Some (records (db_file w)) /\
  (EvPrint ("Database file " +:+ DATABASE_FILE
              +:+ " does not exist. Creating it now.")
     ∈ drop (length (trace w)) (trace w1) <-> db_exists w = false) /\
  db_file w2 = db_file w1 /\
  trace w2 = trace w1 ++ [EvSql CreateTableIfNotExists; EvCommit].
Proof.
  cbv zeta. unfold eval, exec. rewrite !ensure_database_exists_run. simpl.
  repeat split; try done.
  - rewrite drop_app_length. unfold creation_notice.
    destruct (db_exists w); [|done]. intros H.
    repeat (apply elem_of_cons in H as [H|H]; [discriminate H|]).
    by apply elem_of_nil in H.
  - rewrite drop_app_length. unfold creation_notice.
    intros ->. apply list_elem_of_here.
Qed.

(** ** More on [update_local_database] *)

(** X2: a response without 'Contents', like one with an empty list,
    empties the cache. *)
Theorem update_local_database_empty_bucket (DATABASE_FILE : string)
    (clock : nat -> datetime) (resp : ListResponse) (w : World) :
  Contents resp = None \/ Contents resp = Some [] ->
  let pass := update_local_database DATABASE_FILE clock (Ok resp) in
  eval pass w = Ok tt /\ db_file (exec pass w) = Some ∅.
Proof.
  intros Hempty.
  destruct (update_local_database_listing DATABASE_FILE clock resp w)
    as (t' & evs & Hrun & Hsize & _).
  cbv zeta. unfold eval, exec. rewrite Hrun. simpl. split; [done|].
  f_equal. apply map_eq. intros k. rewrite lookup_empty.
  specialize (Hsize k).
  assert (default [] (Contents resp) = []) as Hnil
    by (by destruct Hempty as [-> | ->]).
  rewrite Hnil in Hsize. simpl in Hsize. by apply fmap_None in Hsize.
Qed.

Lemma update_local_database_empty_bucket_witness :
  db_file (exec (update_local_database "s3_files.db" sample_clock
                   (Ok (mkListResponse None))) sample_world) = Some ∅.
Proof.
  apply (update_local_database_empty_bucket "s3_files.db" sample_clock
           (mkListResponse None) sample_world).
  by left.
Defined.

Lemma dict_of_items_snoc {V} (l : list (string * V)) (x : string * V) :
  dict_of_items (l ++ [x]) = dict_set (dict_of_items l) x.1 x.2.
Proof. unfold dict_of_items. by rewrite fold_left_app. Qed.

Lemma last_size_snoc (l : list (string * Z)) (k0 : string) (v0 : Z) (k : string) :
  last_size (l ++ [(k0, v0)]) k
    = if decide (k0 = k) then Some v0 else last_size l k.
Proof.
  unfold last_size. rewrite filter_app, filter_cons, filter_nil. simpl.
  destruct (decide (k0 = k)) as [Hk|Hk].
  - by rewrite last_snoc.
  - by rewrite app_nil_r.
Qed.

Lemma dict_of_items_last (l : list (string * Z)) (k : string) :
  dict_get (dict_of_items l) k = last_size l k.
Proof.
  induction l as [|[k0 v0] l IH] using rev_ind; [done|].
  by rewrite dict_of_items_snoc, dict_get_set, last_size_snoc, IH.
Qed.

(** X3: when a response lists a key more than once, the dictionary built
    from it keeps the size listed last, and that is the size the cache
    holds after the pass; a key that is not listed is not in the cache. *)
Theorem update_local_database_last_size_wins (DATABASE_FILE : string)
    (clock : nat -> datetime) (resp : ListResponse) (w : World) (k : string) :
  size <$> records (db_file (exec (update_local_database DATABASE_FILE clock
                                     (Ok resp)) w)) !! k
    = last_size (listing resp) k.
Proof.
  destruct (update_local_database_listing DATABASE_FILE clock resp w)
    as (t' & evs & Hrun & Hsize & _).
  unfold exec. rewrite Hrun. simpl. rewrite Hsize.
  apply dict_of_items_last.
Qed.

Lemma exn_denied_cases (e : exn) :
  e = ClientError "AllAccessDisabled" \/ e <> ClientError "AllAccessDisabled".
Proof.
  destruct e as [?|code|?|?|?]; try (by right).
  destruct (String.eqb_spec code "AllAccessDisabled") as [->|?];
    [by left|right; congruence].
Qed.

(** Whatever the listing request does, the table exists after the pass. *)
Lemma update_local_database_table_exists (DATABASE_FILE : string)
    (clock : nat -> datetime) (outcome : result ListResponse) (w : World) :
  exists t,
    db_file (exec (update_local_database DATABASE_FILE clock outcome) w)
      = Some t.
Proof.
  unfold exec. destruct outcome as [resp|e].
  - destruct (update_local_database_listing DATABASE_FILE clock resp w)
      as (t' & evs & Hrun & _).
    rewrite Hrun. by eexists.
  - destruct (exn_denied_cases e) as [->|Hne].
    + rewrite update_local_database_denied. by eexists.
    + rewrite update_local_database_failure by done. by eexists.
Qed.

Lemma needFile_run_table (rule : string) (clock : nat -> datetime)
    (mac filename : string) (sz : Z) (w : World) (t : gmap string Row)
    (id : string) :
  db_file w = Some t ->
  eval (build_s3_filename rule clock mac filename) w = Ok id ->
  needFile rule clock mac filename sz w
    = (Ok (match row_exact (mkConn (Some t)) id sz with
           | None => true
           | Some _ => false
           end),
       mkWorld true (db_file w) (S (ticks w))
         (trace w ++ [EvSql (SelectExact id sz)])).
Proof.
  intros Hdb Hid.
  pose proof (build_s3_filename_connected rule clock mac filename w) as Hb.
  unfold needFile, bind, sqlite3_connect, fetchone_exact, cursor_execute,
    conn_close, ret; simpl.
  rewrite Hb, Hid. simpl. by rewrite Hdb.
Qed.

Lemma build_s3_filename_enumerated (rule : string) (clock : nat -> datetime)
    (mac filename : string) (w : World) :
  rule ∈ GRANULARITIES ->
  exists id, eval (build_s3_filename rule clock mac filename) w = Ok id.
Proof.
  intros Hin. rewrite build_s3_filename_eval.
  destruct (format_datetime_enumerated rule clock w Hin) as [b ->].
  by eexists.
Qed.

(** X4: once [update_local_database] has run, whatever the listing
    request did, [needFile] with an enumerated granularity answers and
    does not raise: the pass leaves the table in place. *)
Theorem needFile_answers_after_update (DATABASE_FILE rule : string)
    (clock : nat -> datetime) (outcome : result ListResponse)
    (mac filename : string) (sz : Z) (w : World) :
  rule ∈ GRANULARITIES ->
  exists need,
    eval (needFile rule clock mac filename sz)
      (exec (update_local_database DATABASE_FILE clock outcome) w) = Ok need.
Proof.
  intros Hin.
  destruct (update_local_database_table_exists DATABASE_FILE clock outcome w)
    as [t Ht].
  destruct (build_s3_filename_enumerated rule clock mac filename
              (exec (update_local_database DATABASE_FILE clock outcome) w) Hin)
    as [id Hid].
  unfold eval at 1. rewrite (needFile_run_table _ _ _ _ _ _ t id Ht Hid).
  by eexists.
Qed.

Lemma needFile_answers_after_update_witness :
  exists need,
    eval (needFile "weeks" sample_clock "dev1" "a.txt" 10)
      (exec (update_local_database "s3_files.db" sample_clock
               (Raise (RemoteFailure "EndpointConnectionError")))
         fresh_world) = Ok need.
Proof.
  apply needFile_answers_after_update.
  apply elem_of_GRANULARITIES. tauto.
Defined.

(** ** What a pass executes *)






#[local] Set Warnings "-clear-no-such-hyp".









(** ** More on [upload_files] *)

Lemma for_each_skip_non_regular (rule : string) (clock : nat -> datetime)
    (upload_fault : World -> string -> option exn) (mac : string)
    (files : list (string * Node)) :
  forall (conn : Connection) (w : World),
  for_each files conn (upload_entry rule clock upload_fault mac) w
    = for_each (filter (fun f => is_regular f.2 = true) files) conn
        (upload_entry rule clock upload_fault mac) w.
Proof.
  induction files as [|[f node] files IH]; intros conn w; [done|].
  rewrite filter_cons. destruct node as [sz|sub|]; simpl.
  - unfold bind.
    destruct (upload_entry rule clock upload_fault mac conn
                (f, RegularFile sz) w) as [[conn'|e] w1]; [apply IH|done].
  - apply IH.
  - apply IH.
Qed.

Lemma for_each_skip_non_folders (rule : string) (clock : nat -> datetime)
    (upload_fault : World -> string -> option exn)
    (data_directory : list (string * Node)) :
  forall (conn : Connection) (w : World),
  for_each data_directory conn (upload_folder rule clock upload_fault) w
    = for_each (prune data_directory) conn
        (upload_folder rule clock upload_fault) w.
Proof.
  induction data_directory as [|[mac node] dir IH]; intros conn w; [done|].
  destruct node as [sz|files|]; simpl.
  - apply IH.
  - unfold bind.
    change (upload_folder rule clock upload_fault conn (mac, Directory files) w)
      with (for_each files conn (upload_entry rule clock upload_fault mac) w).
    rewrite for_each_skip_non_regular.
    change (upload_folder rule clock upload_fault conn
              (mac, Directory (filter (fun f => is_regular f.2 = true) files)) w)
      with (for_each (filter (fun f => is_regular f.2 = true) files) conn
              (upload_entry rule clock upload_fault mac) w).
    destruct (for_each _ conn _ w) as [[conn'|e] w1]; [apply IH|done].
  - apply IH.
Qed.

(** X6: entries of the data directory that are not folders, and entries of
    a folder that are not regular files, are skipped without a trace: the
    walk returns the same result and leaves the same world as the walk
    over the folders with their regular files only. *)
Theorem upload_files_skips_silently (rule : string) (clock : nat -> datetime)
    (upload_fault : World -> string -> option exn)
    (data_directory : list (string * Node)) (w : World) :
  upload_files rule clock upload_fault data_directory w
    = upload_files rule clock upload_fault (prune data_directory) w.
Proof.
  unfold upload_files, bind, sqlite3_connect.
  by rewrite for_each_skip_non_folders.
Qed.

(** When [needFile] raises for every file in the world the walk starts in,
    the walk ends at its first regular file. *)
Lemma folder_stops_at_first_file (rule : string) (clock : nat -> datetime)
    (upload_fault : World -> string -> option exn) (e0 : exn) (w' w1 : World)
    (mac : string) :
  (forall mac f sz, needFile rule clock mac f sz w' = (Raise e0, w1)) ->
  forall (files : list (string * Node)) (conn : Connection),
  for_each files conn (upload_entry rule clock upload_fault mac) w'
    = match folder_files (mac, Directory files) with
      | [] => (Ok conn, w')
      | _ :: _ => (Raise e0, w1)
      end.
Proof.
  intros Hraise. induction files as [|[f node] files IH]; intros conn; [done|].
  destruct node as [sz|sub|]; simpl.
  - unfold bind, upload_entry; simpl. unfold bind. by rewrite Hraise.
  - apply IH.
  - apply IH.
Qed.

Lemma walk_stops_at_first_file (rule : string) (clock : nat -> datetime)
    (upload_fault : World -> string -> option exn) (e0 : exn) (w' w1 : World) :
  (forall mac f sz, needFile rule clock mac f sz w' = (Raise e0, w1)) ->
  forall (data_directory : list (string * Node)) (conn : Connection),
  for_each data_directory conn (upload_folder rule clock upload_fault) w'
    = match walk_files data_directory with
      | [] => (Ok conn, w')
      | _ :: _ => (Raise e0, w1)
      end.
Proof.
  intros Hraise.
  induction data_directory as [|[mac node] dir IH]; intros conn; [done|].
  unfold walk_files. rewrite bind_cons. fold (walk_files dir).
  destruct node as [sz|files|]; simpl.
  - apply IH.
  - unfold bind.
    change (upload_folder rule clock upload_fault conn (mac, Directory files) w')
      with (for_each files conn (upload_entry rule clock upload_fault mac) w').
    rewrite (folder_stops_at_first_file _ _ _ e0 w' w1 mac Hraise).
    change (folder_files (mac, Directory files)) with
      (omap (fun f : string * Node =>
               match f.2 with
               | RegularFile sz => Some (mac, f.1, sz)
               | _ => None
               end) files).
    destruct (omap _ files); [apply IH|done].
  - apply IH.
Qed.

Lemma format_datetime_not_enumerated (rule : string) (clock : nat -> datetime)
    (w : World) :
  rule ∉ GRANULARITIES ->
  eval (format_datetime rule clock) w = Raise (ValueError "Invalid DT_RULE value").
Proof.
  rewrite format_datetime_eval, elem_of_GRANULARITIES. cbv zeta.
  intros Hout.
  repeat (match goal with |- context [String.eqb ?a ?b] =>
            destruct (String.eqb_spec a b) as [->|?] end;
          [exfalso; apply Hout; tauto|]).
  reflexivity.
Qed.

Lemma needFile_no_table (rule : string) (clock : nat -> datetime)
    (mac filename : string) (sz : Z) (w : World) :
  db_file w = None -> rule ∈ GRANULARITIES ->
  needFile rule clock mac filename sz w
    = (Raise no_such_table, mkWorld true None (S (ticks w)) (trace w)).
Proof.
  intros Hdb Hin.
  destruct (build_s3_filename_enumerated rule clock mac filename w Hin)
    as [id Hid].
  pose proof (build_s3_filename_connected rule clock mac filename w) as Hb.
  unfold needFile, bind, sqlite3_connect, fetchone_exact, cursor_execute,
    conn_close, ret; simpl.
  rewrite Hb, Hid. simpl. by rewrite Hdb.
Qed.

Lemma needFile_bad_rule (rule : string) (clock : nat -> datetime)
    (mac filename : string) (sz : Z) (w : World) :
  rule ∉ GRANULARITIES ->
  needFile rule clock mac filename sz w
    = (Raise (ValueError "Invalid DT_RULE value"),
       mkWorld true (db_file w) (S (ticks w)) (trace w)).
Proof.
  intros Hout.
  pose proof (build_s3_filename_connected rule clock mac filename w) as Hb.
  rewrite build_s3_filename_eval, format_datetime_not_enumerated in Hb by done.
  unfold needFile, bind, sqlite3_connect; simpl. by rewrite Hb.
Qed.

Lemma upload_files_run (rule : string) (clock : nat -> datetime)
    (upload_fault : World -> string -> option exn)
    (data_directory : list (string * Node)) (w : World) :
  upload_files rule clock upload_fault data_directory w
    = match for_each data_directory (mkConn (db_file w))
              (upload_folder rule clock upload_fault)
              (mkWorld true (db_file w) (ticks w) (trace w)) with
      | (Ok conn, w1) =>
          (Ok tt, mkWorld (db_exists w1) (view conn) (ticks w1)
                    (trace w1 ++ [EvCommit]))
      | (Raise e, w1) => (Raise e, w1)
      end.
Proof.
  unfold upload_files, bind, sqlite3_connect, conn_commit, conn_close, ret.
  by destruct (for_each data_directory _ _ _) as [[conn|e] w1].
Qed.

(** X7: while the table [s3_files] does not exist, [needFile] raises
    sqlite3's "no such table" error, and a walk that meets a regular file
    ends with that error at the first one: nothing is transferred, nothing
    is committed and the table is still missing. *)
Theorem upload_files_without_table (rule : string) (clock : nat -> datetime)
    (upload_fault : World -> string -> option exn)
    (data_directory : list (string * Node)) (w : World) :
  db_file w = None -> rule ∈ GRANULARITIES ->
  (forall mac filename sz,
     eval (needFile rule clock mac filename sz) w = Raise no_such_table) /\
  (walk_files data_directory <> [] ->
   upload_files rule clock upload_fault data_directory w
     = (Raise no_such_table, mkWorld true None (S (ticks w)) (trace w))).
Proof.
  intros Hdb Hin. split.
  - intros. unfold eval. by rewrite needFile_no_table.
  - intros Hfiles. rewrite upload_files_run.
    rewrite (walk_stops_at_first_file rule clock upload_fault no_such_table
               _ (mkWorld true None (S (ticks w)) (trace w))).
    + by destruct (walk_files data_directory).
    + intros. by rewrite needFile_no_table.
Qed.

(** X8: an unrecognized DT_RULE comes to light only when a walk meets a
    regular file: the walk then ends with the [ValueError] at the first
    one, before any query, transfer or commit; a walk that meets no
    regular file returns normally and only commits. *)
Theorem upload_files_bad_rule (rule : string) (clock : nat -> datetime)
    (upload_fault : World -> string -> option exn)
    (data_directory : list (string * Node)) (w : World) :
  rule ∉ GRANULARITIES ->
  (walk_files data_directory <> [] ->
   upload_files rule clock upload_fault data_directory w
     = (Raise (ValueError "Invalid DT_RULE value"),
        mkWorld true (db_file w) (S (ticks w)) (trace w))) /\
  (walk_files data_directory = [] ->
   upload_files rule clock upload_fault data_directory w
     = (Ok tt, mkWorld true (db_file w) (ticks w) (trace w ++ [EvCommit]))).
Proof.
  intros Hout.
  assert (upload_files rule clock upload_fault data_directory w
          = match walk_files data_directory with
            | [] => (Ok tt, mkWorld true (db_file w) (ticks w)
                              (trace w ++ [EvCommit]))
            | _ :: _ => (Raise (ValueError "Invalid DT_RULE value"),
                         mkWorld true (db_file w) (S (ticks w)) (trace w))
            end) as Hrun.
  { rewrite upload_files_run.
    rewrite (walk_stops_at_first_file rule clock upload_fault
               (ValueError "Invalid DT_RULE value")
               _ (mkWorld true (db_file w) (S (ticks w)) (trace w))).
    - by destruct (walk_files data_directory).
    - intros. by rewrite needFile_bad_rule. }
  rewrite Hrun. split; intros H; by destruct (walk_files data_directory).
Qed.




Lemma upload_files_without_table_witness :
  upload_files "never" sample_clock sample_fault sample_directory fresh_world
    = (Raise no_such_table, mkWorld true None 1 []).
Proof.
  apply (upload_files_without_table "never" sample_clock sample_fault
           sample_directory fresh_world eq_refl).
  - apply elem_of_GRANULARITIES. tauto.
  - vm_compute. discriminate.
Defined.

Lemma upload_files_bad_rule_witness :
  upload_files "daily" sample_clock sample_fault sample_directory sample_world
    = (Raise (ValueError "Invalid DT_RULE value"),
       mkWorld true (db_file sample_world) 1 []).
Proof.
  apply (upload_files_bad_rule "daily" sample_clock sample_fault
           sample_directory sample_world).
  - intros H. apply elem_of_GRANULARITIES in H.
    repeat (destruct H as [H|H]; [discriminate H|]). discriminate H.
  - vm_compute. discriminate.
Defined.


(** ** A walk that returns normally *)

Lemma replay_app (a b : list Event) (v : option (gmap string Row)) :
  replay (a ++ b) v = replay b (replay a v).
Proof. unfold replay. by rewrite fold_left_app. Qed.

Lemma uploads_recorded_app (a b : list Event) :
  uploads_recorded a -> uploads_recorded b -> uploads_recorded (a ++ b).
Proof.
  intros Ha Hb j k sz Hj.
  apply lookup_app_Some in Hj as [Hj|[Hlen Hj]].
  - destruct (Ha _ _ _ Hj) as (i & ts & Hi & Hii).
    exists i, ts. split; [done|]. by apply lookup_app_l_Some.
  - destruct (Hb _ _ _ Hj) as (i & ts & Hi & Hii).
    exists (length a + i)%nat, ts. split; [lia|].
    rewrite lookup_app_r by lia.
    by replace (length a + i - length a)%nat with i by lia.
Qed.

Lemma uploads_recorded_none (evs : list Event) :
  (forall k sz, EvUpload k sz ∉ evs) -> uploads_recorded evs.
Proof.
  intros Hno j k sz Hj. exfalso.
  apply (Hno k sz). by apply list_elem_of_lookup_2 in Hj.
Qed.

Lemma recorded_run_refl (conn : Connection) : recorded_run conn [] conn.
Proof.
  split; [done|]. split; [|apply not_elem_of_nil].
  apply uploads_recorded_none. intros; apply not_elem_of_nil.
Qed.

Lemma recorded_run_trans (c c1 c2 : Connection) (a b : list Event) :
  recorded_run c a c1 -> recorded_run c1 b c2 -> recorded_run c (a ++ b) c2.
Proof.
  intros (Hv1 & Hu1 & Hc1) (Hv2 & Hu2 & Hc2). split; [|split].
  - by rewrite replay_app, <- Hv1.
  - by apply uploads_recorded_app.
  - rewrite elem_of_app. tauto.
Qed.

Lemma for_each_recorded {X : Type} (body : Connection -> X -> M Connection) :
  (forall a x w a', fst (body a x w) = Ok a' ->
     exists evs, trace (snd (body a x w)) = trace w ++ evs /\
                 recorded_run a evs a') ->
  forall l a w a', fst (for_each l a body w) = Ok a' ->
    exists evs, trace (snd (for_each l a body w)) = trace w ++ evs /\
                recorded_run a evs a'.
Proof.
  intros Hbody. induction l as [|x l IH]; intros a w a'; simpl.
  - intros [= <-]. exists []. rewrite app_nil_r.
    split; [done|apply recorded_run_refl].
  - unfold bind. specialize (Hbody a x w).
    destruct (body a x w) as [[a1|e] w1]; simpl in *; [|done].
    intros Hok. destruct (Hbody a1 eq_refl) as (evs1 & Htr1 & Hrec1).
    destruct (IH a1 w1 a' Hok) as (evs2 & Htr2 & Hrec2).
    exists (evs1 ++ evs2). rewrite Htr2, Htr1, app_assoc.
    split; [done|]. by apply (recorded_run_trans _ a1).
Qed.

Lemma upload_entry_recorded (rule : string) (clock : nat -> datetime)
    (upload_fault : World -> string -> option exn) (mac : string)
    (conn : Connection) (entry : string * Node) (w : World)
    (conn' : Connection) :
  fst (upload_entry rule clock upload_fault mac conn entry w) = Ok conn' ->
  exists evs,
    trace (snd (upload_entry rule clock upload_fault mac conn entry w))
      = trace w ++ evs /\
    recorded_run conn evs conn'.
Proof.
  destruct entry as [filename [sz|files|]];
    [|intros [= <-]; exists []; rewrite app_nil_r;
      split; [done|apply recorded_run_refl]..].
  rewrite upload_entry_run. cbv zeta.
  repeat match goal with
         | |- context [match ?x with _ => _ end] => destruct x eqn:?
         end; simpl; intros [= <-];
    (eexists; split; [reflexivity|]).
  - split; [done|]. split; [|not_in_list].
    apply uploads_recorded_none. intros; not_in_list.
  - split; [|split; [|not_in_list]].
    + simpl. unfold replay; simpl.
      match goal with H : view conn = Some _ |- _ => by rewrite H end.
    + intros j k s Hj.
      destruct j as [|[|[|[|j]]]]; simpl in Hj; try discriminate Hj.
      injection Hj as -> ->. exists 3%nat. eexists. split; [lia|reflexivity].
Qed.

Lemma upload_folder_recorded (rule : string) (clock : nat -> datetime)
    (upload_fault : World -> string -> option exn)
    (conn : Connection) (entry : string * Node) (w : World)
    (conn' : Connection) :
  fst (upload_folder rule clock upload_fault conn entry w) = Ok conn' ->
  exists evs,
    trace (snd (upload_folder rule clock upload_fault conn entry w))
      = trace w ++ evs /\
    recorded_run conn evs conn'.
Proof.
  destruct entry as [mac [sz|files|]]; unfold upload_folder; simpl;
    [intros [= <-]; exists []; rewrite app_nil_r;
      split; [done|apply recorded_run_refl]| |
     intros [= <-]; exists []; rewrite app_nil_r;
      split; [done|apply recorded_run_refl]].
  apply for_each_recorded. intros. by apply upload_entry_recorded.
Qed.

(** X10: when a walk returns normally, every transfer it made is followed
    by the INSERT OR REPLACE of the same identity and size, the single
    commit is its last event, and the committed table is the table the
    walk found with those INSERT OR REPLACE statements applied in order. *)
Theorem upload_files_commits_every_transfer (rule : string)
    (clock : nat -> datetime) (upload_fault : World -> string -> option exn)
    (data_directory : list (string * Node)) (w : World) :
  let walk := upload_files rule clock upload_fault data_directory in
  eval walk w = Ok tt ->
  exists evs,
    trace (exec walk w) = trace w ++ evs ++ [EvCommit] /\
    (EvCommit ∉ evs) /\
    uploads_recorded evs /\
    db_file (exec walk w) = replay evs (db_file w).
Proof.
  cbv zeta. unfold eval, exec. rewrite upload_files_run.
  pose proof (for_each_recorded (upload_folder rule clock upload_fault)
                (upload_folder_recorded rule clock upload_fault)
                data_directory (mkConn (db_file w))
                (mkWorld true (db_file w) (ticks w) (trace w))) as Hloop.
  destruct (for_each data_directory _ _ _) as [[conn|e] w1]; simpl in *;
    [|done].
  intros _. destruct (Hloop conn eq_refl) as (evs & Htr & Hv & Hu & Hc).
  exists evs. rewrite Htr, <- app_assoc. by rewrite Hv.
Qed.

Lemma upload_files_commits_every_transfer_witness :
  exists evs,
    trace (exec (upload_files "never" sample_clock no_fault sample_directory)
             sample_world)
      = trace sample_world ++ evs ++ [EvCommit] /\
    (EvCommit ∉ evs) /\
    uploads_recorded evs /\
    db_file (exec (upload_files "never" sample_clock no_fault sample_directory)
               sample_world)
      = replay evs (db_file sample_world).
Proof.
  apply (upload_files_commits_every_transfer "never" sample_clock no_fault
           sample_directory sample_world).
  by vm_compute.
Defined.

(** ** More on the key *)








Lemma week_U_of_week (t1 t2 : datetime) :
  year t1 = year t2 -> toordinal t1 / 7 = toordinal t2 / 7 ->
  week_U t1 = week_U t2.
Proof.
  unfold week_U, tm_wday, weekday, tm_yday, toordinal, ymd2ord.
  intros ->.
  generalize (days_before_year (year t2)).
  generalize (days_before_month (year t2) (month t1)).
  generalize (days_before_month (year t2) (month t2)).
  intros a b c. Z.div_mod_to_equations. lia.
Qed.

(** X12: within one year and one period of the granularity the key does
    not change: two calls at such moments return the same result for the
    same folder and file name. *)
Theorem build_s3_filename_stable_within_period (rule : string)
    (clock : nat -> datetime) (mac filename : string) (w1 w2 : World) :
  year (clock (ticks w1)) = year (clock (ticks w2)) ->
  period rule (clock (ticks w1)) = period rule (clock (ticks w2)) ->
  eval (build_s3_filename rule clock mac filename) w1
    = eval (build_s3_filename rule clock mac filename) w2.
Proof.
  intros Hy. rewrite !build_s3_filename_eval, !format_datetime_eval.
  unfold period. cbv zeta.
  destruct (String.eqb rule "seconds");
    [intros [= ? ? ? ? ?]; rewrite !strftime_seconds; congruence|].
  destruct (String.eqb rule "hours");
    [intros [= ? ? ?]; rewrite !strftime_hours; congruence|].
  destruct (String.eqb rule "days");
    [intros [= ? ?]; rewrite !strftime_days; congruence|].
  destruct (String.eqb rule "weeks").
  { intros [= Hw]. by rewrite !strftime_weeks, Hy, (week_U_of_week _ _ Hy Hw). }
  destruct (String.eqb rule "months");
    [intros [= ?]; rewrite !strftime_months; congruence|].
  destruct (String.eqb rule "years");
    [intros _; rewrite !strftime_years; congruence|].
  done.
Qed.

Lemma build_s3_filename_stable_within_period_witness :
  eval (build_s3_filename "weeks" sample_clock "dev1" "a.txt")
    (mkWorld true None 1 [])
    = eval (build_s3_filename "weeks" sample_clock "dev1" "a.txt")
        (mkWorld true None 2 []).
Proof.
  apply build_s3_filename_stable_within_period; reflexivity.
Defined.

Lemma strftime_year_inj (rule fmt : string) (t1 t2 : datetime) :
  (rule, fmt) ∈ BUCKET_FORMATS ->
  1 <= year t1 <= 9999 -> 1 <= year t2 <= 9999 ->
  strftime t1 fmt = strftime t2 fmt -> year t1 = year t2.
Proof.
  unfold BUCKET_FORMATS. rewrite !elem_of_cons, elem_of_nil.
  intros Hin Hy1 Hy2.
  destruct Hin as [[= -> ->]|[[= -> ->]|[[= -> ->]|[[= -> ->]|
                  [[= -> ->]|[[= -> ->]|[]]]]]]]; intros Hs;
    rewrite ?strftime_seconds, ?strftime_hours, ?strftime_days,
      ?strftime_weeks, ?strftime_months, ?strftime_years in Hs;
    by apply pad4_append_inj in Hs as [? _]; [|lia|lia].
Qed.

(** X13: with every granularity other than "never" the key changes with
    the year, also "weeks", whose last week of a year and first week of
    the next may be the same calendar week. *)
Theorem build_s3_filename_changes_with_year (rule : string)
    (clock : nat -> datetime) (mac filename : string) (w1 w2 : World) :
  rule ∈ GRANULARITIES -> rule <> "never" ->
  1 <= year (clock (ticks w1)) <= 9999 ->
  1 <= year (clock (ticks w2)) <= 9999 ->
  year (clock (ticks w1)) <> year (clock (ticks w2)) ->
  exists k1 k2,
    eval (build_s3_filename rule clock mac filename) w1 = Ok k1 /\
    eval (build_s3_filename rule clock mac filename) w2 = Ok k2 /\
    k1 <> k2.
Proof.
  intros Hin Hn Hy1 Hy2 Hne.
  destruct (format_datetime_bucket_format rule Hin Hn) as (fmt & Hf & Hb).
  rewrite !build_s3_filename_eval, !Hb.
  do 2 eexists. split; [reflexivity|]. split; [reflexivity|].
  intros Hk. apply Hne.
  apply s3_filename_of_bucket_inj in Hk; [|by apply (strftime_length rule)].
  by apply (strftime_year_inj rule fmt).
Qed.

(** ** A pass followed by a walk *)


Lemma build_s3_filename_changes_with_year_witness :
  exists k1 k2,
    eval (build_s3_filename "weeks" new_year_clock "dev1" "a.txt")
      (mkWorld true None 0 []) = Ok k1 /\
    eval (build_s3_filename "weeks" new_year_clock "dev1" "a.txt")
      (mkWorld true None 1 []) = Ok k2 /\
    k1 <> k2.
Proof.
  apply build_s3_filename_changes_with_year.
  - apply elem_of_GRANULARITIES. tauto.
  - discriminate.
  - simpl. lia.
  - simpl. lia.
  - simpl. lia.
Defined.

